(** * POS shell: a shallow embedding of [shell.c] and its job-control properties

    The shell keeps its state in file-scope variables ([interrupt], [fg_pid],
    [bg_head], [buffer], [new_command]).  They are gathered in the record
    [shell]; every C function becomes a function that takes the record and
    returns the updated one.  What the operating system decides (how many
    bytes a [read] delivers, which children have terminated, whether an
    allocation succeeds, what [fork] and [waitpid] answer) is either part of
    the small [kernel] record or an explicit argument of the function that
    makes the call.  Everything the program writes or sends is appended to
    the [trace] field, in program order.

    C [int]s that are only ever used as truth values ([running],
    [run_in_bg], [interrupt], [new_command], [ignore]) are [bool]s here;
    process identifiers are [Z], with [-1] as the "no foreground child"
    sentinel exactly as in the source.  Pointers into [buffer] are offsets
    ([nat]); a pointer that may be [NULL] is an [option]. *)

From Stdlib Require Import ZArith List String Ascii Bool Lia Arith DecimalString.
From Stdlib Require Import Permutation.
Import ListNotations.
Local Open Scope list_scope.

Set Implicit Arguments.

(* ------------------------------------------------------------------ *)
(** ** Constants of the source *)

Definition EFFECTIVE_BUFFER_SIZE : nat := 512.
Definition BUFFER_SIZE : nat := 513.
Definition ARGS_SIZE : nat := 4.

Definition CMD_EXIT : string := "exit".
Definition PROMPT : string := "$ ".

Definition RUN_IN_BG : ascii := "&"%char.
Definition REDIR_OUT : ascii := ">"%char.
Definition REDIR_IN : ascii := "<"%char.

Definition NUL : ascii := zero.
Definition LF : ascii := "010"%char.

(** Signals and error numbers are kept symbolic: their numeric values
    differ between platforms and the program only compares them. *)
Inductive signal : Type := SIGINT | SIGKILL | SIGCHLD | SIGUSR1 | SIGUSR2.

Inductive errno_t : Type := ECHILD | EINTR | EINVAL.

Definition signal_eqb (a b : signal) : bool :=
  match a, b with
  | SIGINT, SIGINT | SIGKILL, SIGKILL | SIGCHLD, SIGCHLD
  | SIGUSR1, SIGUSR1 | SIGUSR2, SIGUSR2 => true
  | _, _ => false
  end.

Definition errno_eqb (a b : errno_t) : bool :=
  match a, b with
  | ECHILD, ECHILD | EINTR, EINTR | EINVAL, EINVAL => true
  | _, _ => false
  end.

Definition EXIT_FAILURE : Z := 1%Z.
Definition EXIT_SUCCESS : Z := 0%Z.

(* ------------------------------------------------------------------ *)
(** ** Data model *)

(** [process_t]: one node of the linked list headed by [bg_head].  The
    [next] pointer is the tail of the Rocq list. *)
Record process_t : Type := mk_process {
  running : bool;
  pid : Z
}.

(** [command_t].  [args] is [None] for a [NULL] array; a slot of the array
    is [None] for a [NULL] entry and [Some off] for [&buffer[off]]. *)
Record command_t : Type := mk_command {
  run_in_bg : bool;
  args : option (list (option nat));
  out : option nat;
  in_ : option nat
}.

(** Observable actions, in the order the program performs them. *)
Inductive event : Type :=
| Stdout (s : string)                 (* printf *)
| Stderr (s : string)                 (* fprintf (stderr, ...) *)
| Perror (s : string)                 (* perror (s) *)
| Kill (p : Z) (sig : signal)         (* kill (p, sig) *)
| Fork (c_pid : Z)                    (* fork (), with what it returned *)
| Open (path : string) (write : bool) (* open, for writing or reading *)
| Dup2 (write : bool).                (* dup2 onto stdout or stdin *)

(** The file-scope variables of the shell, plus the trace and the bytes
    that stdio has read ahead from standard input into the buffer of its
    [stdin] stream and not handed out yet. *)
Record shell : Type := mk_shell {
  interrupt : bool;
  fg_pid : Z;
  bg_head : list process_t;
  buffer : list ascii;
  new_command : bool;
  trace : list event;
  stdin_buf : list ascii
}.

Definition set_interrupt (b : bool) (w : shell) : shell :=
  mk_shell b (fg_pid w) (bg_head w) (buffer w) (new_command w)
           (trace w) (stdin_buf w).
Definition set_fg_pid (p : Z) (w : shell) : shell :=
  mk_shell (interrupt w) p (bg_head w) (buffer w) (new_command w)
           (trace w) (stdin_buf w).
Definition set_bg_head (l : list process_t) (w : shell) : shell :=
  mk_shell (interrupt w) (fg_pid w) l (buffer w) (new_command w)
           (trace w) (stdin_buf w).
Definition set_buffer (b : list ascii) (w : shell) : shell :=
  mk_shell (interrupt w) (fg_pid w) (bg_head w) b (new_command w)
           (trace w) (stdin_buf w).
Definition set_new_command (b : bool) (w : shell) : shell :=
  mk_shell (interrupt w) (fg_pid w) (bg_head w) (buffer w) b
           (trace w) (stdin_buf w).
Definition emit (e : event) (w : shell) : shell :=
  mk_shell (interrupt w) (fg_pid w) (bg_head w) (buffer w) (new_command w)
           (trace w ++ [e]) (stdin_buf w).
Definition set_stdin_buf (bs : list ascii) (w : shell) : shell :=
  mk_shell (interrupt w) (fg_pid w) (bg_head w) (buffer w) (new_command w)
           (trace w) bs.

(** The initial values of the globals. *)
Definition shell_init : shell :=
  mk_shell false (-1) [] (repeat NUL BUFFER_SIZE) false [] [].

(** The part of the operating system the shell talks to: the bytes still
    unread on standard input and the children that have terminated and
    have not been waited for yet.  Process identifiers handed out by the
    kernel are positive. *)
Record kernel : Type := mk_kernel {
  stdin : list ascii;
  zombies : list positive
}.

(** [printf ("%d", z)]. *)
Definition fmt_d (z : Z) : string := NilZero.string_of_int (Z.to_int z).

Definition msg_finished (p : Z) : string :=
  ("[" ++ fmt_d p ++ "] Finished" ++ String LF "")%string.
Definition msg_started (p : Z) : string :=
  ("[" ++ fmt_d p ++ "] Started" ++ String LF "")%string.

(* ------------------------------------------------------------------ *)
(** ** [prompt_show] *)

(** The [while (curr_process != NULL)] loop.  [before] is the part of the
    list from [bg_head] up to and including [prev_process] (empty while
    [prev_process == NULL]), [curr] the part from [curr_process] on, [evs]
    what has been printed so far.  A node that is not running is reported
    and unlinked: with no predecessor the head moves to its successor,
    otherwise the predecessor is linked to its successor; either way
    [before] stays as it is and the loop continues with the successor.  A
    running node becomes the new [prev_process]. *)
Fixpoint prompt_loop (before curr : list process_t) (evs : list event)
  : list event * list process_t :=
  match curr with
  | [] => (evs, before)
  | p :: next =>
      if negb (running p)
      then prompt_loop before next (evs ++ [Stdout (msg_finished (pid p))])
      else prompt_loop (before ++ [p]) next evs
  end.

Definition prompt_show (w : shell) : shell :=
  let '(evs, kept) := prompt_loop [] (bg_head w) [] in
  mk_shell (interrupt w) (fg_pid w) kept (buffer w) (new_command w)
           (trace w ++ evs ++ [Stdout PROMPT]) (stdin_buf w).

(* ------------------------------------------------------------------ *)
(** ** [command_exit_handler] *)

(** The [while] loop of the exit handler: the [kill] calls it makes, in
    list order.  Every node is freed, whatever its flag. *)
Fixpoint exit_kills (curr : list process_t) : list event :=
  match curr with
  | [] => []
  | p :: next =>
      if running p
      then Kill (pid p) SIGKILL :: exit_kills next
      else exit_kills next
  end.

Definition command_exit_handler (w : shell) : shell :=
  mk_shell true (fg_pid w) [] (buffer w) (new_command w)
           (trace w ++ exit_kills (bg_head w)) (stdin_buf w).

(* ------------------------------------------------------------------ *)
(** ** [sig_handler] *)

(** [waitpid (-1, NULL, WNOHANG)]: hands out one terminated child and
    forgets it; with none left the answer is not positive. *)
Definition waitpid_nohang (k : kernel) : Z * kernel :=
  match zombies k with
  | [] => (0%Z, k)
  | z :: zs => (Z.pos z, mk_kernel (stdin k) zs)
  end.

(** The inner [while (process != NULL)] loop: the first node whose pid is
    [c_pid] gets [running = 0], then [break]. *)
Fixpoint mark_terminated (c_pid : Z) (l : list process_t) : list process_t :=
  match l with
  | [] => []
  | p :: next =>
      if (pid p =? c_pid)%Z
      then mk_process false (pid p) :: next
      else p :: mark_terminated c_pid next
  end.

(** Body of the [while ((c_pid = waitpid (...)) > 0)] loop. *)
Definition reap_one (c_pid : Z) (w : shell) : shell :=
  if (c_pid =? fg_pid w)%Z
  then set_fg_pid (-1) w
  else set_bg_head (mark_terminated c_pid (bg_head w)) w.

(** The outer loop; [fuel] bounds the number of [waitpid] calls. *)
Fixpoint reap_loop (fuel : nat) (k : kernel) (w : shell) : option (kernel * shell) :=
  match fuel with
  | O => None
  | S fuel' =>
      let '(c_pid, k') := waitpid_nohang k in
      if (c_pid >? 0)%Z
      then reap_loop fuel' k' (reap_one c_pid w)
      else Some (k', w)
  end.

Definition sig_handler (fuel : nat) (sig_num : signal) (k : kernel) (w : shell)
  : option (kernel * shell) :=
  match (if signal_eqb sig_num SIGCHLD then reap_loop fuel k w else Some (k, w)) with
  | None => None
  | Some (k1, w1) =>
      if signal_eqb sig_num SIGINT
      then
        let w2 := emit (Stdout (String LF "")) w1 in
        if negb (fg_pid w2 =? -1)%Z
        then Some (k1, emit (Kill (fg_pid w2) SIGINT) w2)
        else Some (k1, prompt_show w2)
      else Some (k1, w1)
  end.


(* ------------------------------------------------------------------ *)
(** ** Characters, C strings and array updates *)

(** [isspace] in the "C" locale: space, and the five controls from
    horizontal tab (9) to carriage return (13). *)
Definition isspace (c : ascii) : bool :=
  let n := nat_of_ascii c in
  (n =? 32) || ((9 <=? n) && (n <=? 13)).

Definition is_nul (c : ascii) : bool := Ascii.eqb c NUL.

Definition is_marker (c : ascii) : bool :=
  Ascii.eqb c RUN_IN_BG || Ascii.eqb c REDIR_OUT || Ascii.eqb c REDIR_IN.

(** The NUL-terminated string that starts at the head of [l]. *)
Fixpoint cstring (l : list ascii) : string :=
  match l with
  | [] => EmptyString
  | c :: l' => if is_nul c then EmptyString else String c (cstring l')
  end.

(** The string a [char *] equal to [&buf[off]] points to. *)
Definition cstring_at (buf : list ascii) (off : nat) : string :=
  cstring (skipn off buf).

(** [l[i] = x]; an index outside the array is never used by the source
    and leaves the list as it is. *)
Fixpoint store {A : Type} (i : nat) (x : A) (l : list A) : list A :=
  match l, i with
  | [], _ => []
  | _ :: l', O => x :: l'
  | y :: l', S i' => y :: store i' x l'
  end.

(** [memcpy]-like overwrite of the front of [l] by [bs] (what [read] and
    [strcpy] do to [buffer]). *)
Definition overwrite (bs l : list ascii) : list ascii :=
  bs ++ skipn (List.length bs) l.

(* ------------------------------------------------------------------ *)
(** ** [command_parse] *)

(** The locals of [command_parse] together with the fields of the
    [command] being filled in.  [p_args] holds the slots written so far,
    so [pos] is its length; [args_size] is the capacity of the array;
    [scanned] is [buffer[0 .. i)] as the loop has left it. *)
Record parser : Type := mk_parser {
  p_run_in_bg : bool;
  p_args : list nat;
  args_size : nat;
  p_out : option nat;
  p_in : option nat;
  token : ascii;
  ignore : bool;
  scanned : list ascii
}.

Definition parser_init : parser :=
  mk_parser false [] ARGS_SIZE None None NUL false [].

(** First branch of the loop body: white space or NUL. *)
Definition parse_space (st : parser) : parser :=
  mk_parser (p_run_in_bg st) (p_args st) (args_size st) (p_out st) (p_in st)
            (token st) false (scanned st ++ [NUL]).

(** Second branch: one of the three control characters. *)
Definition parse_marker (c : ascii) (st : parser) : parser :=
  mk_parser (if Ascii.eqb c RUN_IN_BG then true else p_run_in_bg st)
            (p_args st) (args_size st) (p_out st) (p_in st)
            c false (scanned st ++ [NUL]).

(** [if (! ignore) { ... }]: the character at offset [i] begins an
    argument; where its address goes depends on [token]. *)
Definition parse_begin (i : nat) (c : ascii) (st : parser) : parser :=
  if ignore st
  then mk_parser (p_run_in_bg st) (p_args st) (args_size st) (p_out st) (p_in st)
                 (token st) true (scanned st ++ [c])
  else if Ascii.eqb (token st) REDIR_IN
  then mk_parser (p_run_in_bg st) (p_args st) (args_size st) (p_out st) (Some i)
                 (token st) true (scanned st ++ [c])
  else if Ascii.eqb (token st) REDIR_OUT
  then mk_parser (p_run_in_bg st) (p_args st) (args_size st) (Some i) (p_in st)
                 (token st) true (scanned st ++ [c])
  else mk_parser (p_run_in_bg st) (p_args st ++ [i]) (args_size st) (p_out st) (p_in st)
                 (token st) true (scanned st ++ [c]).

(** [args_size <<= 1]. *)
Definition parse_grow (st : parser) : parser :=
  mk_parser (p_run_in_bg st) (p_args st) (2 * args_size st) (p_out st) (p_in st)
            (token st) (ignore st) (scanned st).

(** What a command line character is to the parser. *)
Definition ordinary (c : ascii) : bool :=
  negb (isspace c || is_nul c) && negb (is_marker c).

Section Parser.

(** Whether [malloc] / [realloc] of an array of the given number of
    [char *] slots succeeds. *)
Variable alloc : nat -> bool.

(** The [for] loop, from index [i] on; [cs] is [buffer[i .. 512)].  The
    boolean is [false] when the loop was left by the [return -1] after a
    failed [realloc]; the characters not scanned yet are then returned
    too. *)
Fixpoint parse_loop (i : nat) (cs : list ascii) (st : parser)
  : parser * bool * list ascii :=
  match cs with
  | [] => (st, true, [])
  | c :: cs' =>
      if isspace c || is_nul c then parse_loop (S i) cs' (parse_space st)
      else if is_marker c then parse_loop (S i) cs' (parse_marker c st)
      else
        let st1 := parse_begin i c st in
        if args_size st1 <=? List.length (p_args st1)
        then
          let st2 := parse_grow st1 in
          if alloc (args_size st2)
          then parse_loop (S i) cs' st2
          else (st2, false, cs')
        else parse_loop (S i) cs' st1
  end.

(** [command_parse]: the return value, the command and the shell with
    the rewritten buffer.  After a failed allocation [command->args] is
    [NULL]. *)
Definition command_parse (w : shell) : Z * command_t * shell :=
  if negb (alloc ARGS_SIZE)
  then ((-1)%Z, mk_command false None None None, emit (Perror "malloc") w)
  else
    let '(st, ok, rest) :=
      parse_loop 0 (firstn EFFECTIVE_BUFFER_SIZE (buffer w)) parser_init in
    let buf' := scanned st ++ rest ++ skipn EFFECTIVE_BUFFER_SIZE (buffer w) in
    if ok
    then (0%Z,
          mk_command (p_run_in_bg st)
                     (Some (map Some (p_args st)
                            ++ repeat None (args_size st - List.length (p_args st))))
                     (p_out st) (p_in st),
          set_buffer buf' w)
    else ((-1)%Z,
          mk_command (p_run_in_bg st) None (p_out st) (p_in st),
          emit (Perror "realloc") (set_buffer buf' w)).

End Parser.

(** The strings of the argument vector: the slots up to the first [NULL]. *)
Fixpoint argv_strings (buf : list ascii) (slots : list (option nat)) : list string :=
  match slots with
  | Some off :: slots' => cstring_at buf off :: argv_strings buf slots'
  | _ => []
  end.

Definition line (s : string) : list ascii := list_ascii_of_string s.

(** A buffer holding [s] and NULs up to its size. *)
Definition buffer_of (s : string) : list ascii :=
  overwrite (line s) (repeat NUL BUFFER_SIZE).

(* ------------------------------------------------------------------ *)
(** ** [command_fork] *)

(** What [waitpid] stores in [status]. *)
Inductive wstatus : Type :=
| StExited (code : Z)
| StSignaled (sig : signal)
| StStopped (sig : signal)
| StContinued.

Definition WIFEXITED (st : wstatus) : bool :=
  match st with StExited _ => true | _ => false end.

Definition WIFSIGNALED (st : wstatus) : bool :=
  match st with StSignaled _ => true | _ => false end.

(** One answer of the blocking [waitpid (c_pid, &status, 0)]: [-1] with an
    [errno], or a process identifier with a status. *)
Inductive wait_result : Type :=
| WaitFail (e : errno_t)
| WaitOk (w_pid : Z) (status : wstatus).

(** What the system calls made by the child answer. *)
Record child_env : Type := mk_child_env {
  open_out_ok : bool;
  dup2_out_ok : bool;
  open_in_ok : bool;
  dup2_in_ok : bool;
  execvp_ok : bool
}.

(** How a call ends.  [Blocked]: the call never returns, because the
    blocking [waitpid] never does.  [Exited]: the process called [exit].
    [Replaced]: [execvp] succeeded, the process now runs [file] with the
    given argument vector and set of blocked signals. *)
Inductive outcome : Type :=
| Returned (rc : Z) (w : shell)
| Blocked (w : shell)
| Exited (status : Z) (w : shell)
| Replaced (file : string) (argv : list string) (mask : list signal) (w : shell).

(** A [void] function that either returns or calls [exit]. *)
Inductive void_outcome : Type :=
| Done (w : shell)
| Quit (status : Z) (w : shell).

Definition command_redirect_out (env : child_env) (command : command_t) (w : shell)
  : void_outcome :=
  match out command with
  | Some off =>
      let path := cstring_at (buffer w) off in
      let w1 := emit (Open path true) w in
      if negb (open_out_ok env)
      then Quit EXIT_FAILURE
                (emit (Stderr ("Couldn't open file '" ++ path ++ "'." ++ String LF "")%string) w1)
      else
        let w2 := emit (Dup2 true) w1 in
        if negb (dup2_out_ok env)
        then Quit EXIT_FAILURE (emit (Perror "dup2") w2)
        else Done w2
  | None => Done w
  end.

Definition command_redirect_in (env : child_env) (command : command_t) (w : shell)
  : void_outcome :=
  match in_ command with
  | Some off =>
      let path := cstring_at (buffer w) off in
      let w1 := emit (Open path false) w in
      if negb (open_in_ok env)
      then Quit EXIT_FAILURE
                (emit (Stderr ("Couldn't open file '" ++ path ++ "'." ++ String LF "")%string) w1)
      else
        let w2 := emit (Dup2 false) w1 in
        if negb (dup2_in_ok env)
        then Quit EXIT_FAILURE (emit (Perror "dup2") w2)
        else Done w2
  | None => Done w
  end.

(** The [do ... while] loop of the foreground branch, fed with the
    successive answers of [waitpid].  [None]: the answers ran out, the
    call blocks for ever.  [Some (false, w)]: the loop was left by
    [return -1].  [Some (true, w)]: the loop was left by [break] or
    because its condition became false. *)
Fixpoint wait_loop (waits : list wait_result) (w : shell) : option (bool * shell) :=
  match waits with
  | [] => None
  | WaitFail e :: _ =>
      if negb (errno_eqb e ECHILD)
      then Some (false, set_fg_pid (-1) (emit (Perror "waitpid") w))
      else Some (true, w)
  | WaitOk _ status :: waits' =>
      if negb (WIFEXITED status || WIFSIGNALED status)
      then wait_loop waits' w
      else Some (true, w)
  end.

(** The [c_pid == 0] branch. *)
Definition command_child (env : child_env) (command : command_t) (w : shell) : outcome :=
  match command_redirect_out env command w with
  | Quit st w1 => Exited st w1
  | Done w1 =>
      match command_redirect_in env command w1 with
      | Quit st w2 => Exited st w2
      | Done w2 =>
          let mask := if run_in_bg command then [SIGINT] else [] in
          let argv := match args command with
                      | Some slots => argv_strings (buffer w2) slots
                      | None => []
                      end in
          if execvp_ok env
          then Replaced (hd EmptyString argv) argv mask w2
          else Exited EXIT_FAILURE (emit (Perror "execvp") w2)
      end
  end.

(** [command_fork].  [c_pid] is what [fork] returned, [node_ok] whether
    the [malloc] of the [process_t] node succeeds. *)
Definition command_fork (c_pid : Z) (node_ok : bool) (env : child_env)
           (waits : list wait_result) (command : command_t) (w : shell) : outcome :=
  let w := emit (Fork c_pid) w in
  if (c_pid <? 0)%Z then Returned (-1) (emit (Perror "fork") w)
  else if (c_pid >? 0)%Z then
    if negb (run_in_bg command)
    then
      match wait_loop waits (set_fg_pid c_pid w) with
      | None => Blocked (set_fg_pid c_pid w)
      | Some (false, w1) => Returned (-1) w1
      | Some (true, w1) => Returned 0 (set_fg_pid (-1) w1)
      end
    else
      if negb node_ok
      then Returned (-1) (emit (Perror "malloc") w)
      else
        let w1 := emit (Stdout (msg_started c_pid)) w in
        Returned 0 (set_bg_head (mk_process true c_pid :: bg_head w1) w1)
  else command_child env command w.

(* ------------------------------------------------------------------ *)
(** ** [command_execute] *)

(** Everything the environment decides during one [command_execute]. *)
Record exec_env : Type := mk_exec_env {
  alloc : nat -> bool;
  fork_ret : Z;
  node_ok : bool;
  child : child_env;
  waits : list wait_result
}.

(** [command_clear] only touches the local [command], which is dead when
    [command_execute] returns, so it leaves no mark on the shell.  The
    value returned by [command_fork] is dropped by the caller. *)
Definition command_execute (env : exec_env) (w : shell) : outcome :=
  let '(rc, command, w1) := command_parse (alloc env) w in
  if negb (rc =? 0)%Z then Returned (-1) w1
  else
    match args command with
    | None | Some [] | Some (None :: _) => Returned 0 w1
    | Some (Some off :: _) =>
        if String.eqb (cstring_at (buffer w1) off) CMD_EXIT
        then Returned 0 (command_exit_handler w1)
        else
          match command_fork (fork_ret env) (node_ok env) (child env) (waits env)
                             command w1 with
          | Returned _ w2 => Returned 0 w2
          | o => o
          end
    end.

(* ------------------------------------------------------------------ *)
(** ** [input_read] *)

(** What [read (STDIN_FILENO, &buffer, BUFFER_SIZE)] answers: an error, or
    some number of bytes, which the kernel chooses but which never exceeds
    the count asked for nor what is there. *)
Inductive read_answer : Type :=
| ReadError
| ReadBytes (n : nat).

Definition read_stdin (n count : nat) (k : kernel) : list ascii * kernel :=
  let bs := firstn (Nat.min n count) (stdin k) in
  (bs, mk_kernel (skipn (List.length bs) (stdin k)) (zombies k)).

Definition EOF : Z := (-1)%Z.

(** [getchar ()]: the next byte of the stdio stream [stdin] as an
    [unsigned char], or [EOF].  stdio hands out the bytes of the stream's
    buffer; when the buffer is empty it first refills it with one block
    [read] on the descriptor.  How many bytes that [read] delivers is the
    kernel's choice, [fill rest] when [rest] is unread: a terminal hands
    over the rest of the line, a pipe or a file whatever is there, up to
    the size of the buffer.  The bytes delivered leave the descriptor, so
    a later [read (STDIN_FILENO, ...)] does not see them.  A refill that
    brings nothing (end of input, or a failed [read]) makes [getchar]
    return [EOF]. *)
Definition getchar (fill : list ascii -> nat) (k : kernel) (w : shell)
  : Z * kernel * shell :=
  match stdin_buf w with
  | c :: rest => (Z.of_nat (nat_of_ascii c), k, set_stdin_buf rest w)
  | [] =>
      let bs := firstn (fill (stdin k)) (stdin k) in
      match bs with
      | [] => (EOF, k, w)
      | c :: rest =>
          (Z.of_nat (nat_of_ascii c),
           mk_kernel (skipn (List.length bs) (stdin k)) (zombies k),
           set_stdin_buf rest w)
      end
  end.

(** [while (getchar () != '\n');], with [fuel] bounding the number of
    iterations. *)
Fixpoint drain_line (fuel : nat) (fill : list ascii -> nat) (k : kernel) (w : shell)
  : option (kernel * shell) :=
  match fuel with
  | O => None
  | S fuel' =>
      let '(c, k', w') := getchar fill k w in
      if negb (c =? Z.of_nat (nat_of_ascii LF))%Z
      then drain_line fuel' fill k' w'
      else Some (k', w')
  end.

Definition msg_too_long : string :=
  ("Input is too long. Maximum length is " ++ fmt_d (Z.of_nat EFFECTIVE_BUFFER_SIZE)
   ++ String LF "")%string.

(** [strcpy (buffer, s)]. *)
Definition strcpy (buf : list ascii) (s : string) : list ascii :=
  overwrite (line s ++ [NUL]) buf.

(** [input_read].  [None] means that the call did not return within
    [fuel] iterations of the draining loop.  The [read] goes to the
    descriptor itself, past whatever stdio holds in its buffer. *)
Definition input_read (fuel : nat) (fill : list ascii -> nat) (r : read_answer)
                      (k : kernel) (w : shell)
  : option (Z * kernel * shell) :=
  let w0 := set_buffer (repeat NUL BUFFER_SIZE) w in
  match r with
  | ReadError => Some ((-1)%Z, k, emit (Perror "read") w0)
  | ReadBytes n =>
      let '(bs, k1) := read_stdin n BUFFER_SIZE k in
      let num_bytes := List.length bs in
      let w1 := set_buffer (overwrite bs (buffer w0)) w0 in
      if EFFECTIVE_BUFFER_SIZE <? num_bytes
      then
        let w2 := emit (Stderr msg_too_long) w1 in
        if negb (Ascii.eqb (nth (num_bytes - 1) (buffer w2) NUL) LF)
        then match drain_line fuel fill k1 w2 with
             | None => None
             | Some (k2, w3) => Some ((-1)%Z, k2, w3)
             end
        else Some ((-1)%Z, k1, w2)
      else if num_bytes =? 0
      then
        let w2 := set_buffer (strcpy (buffer w1) CMD_EXIT) w1 in
        Some (0%Z, k1, emit (Stdout (cstring (buffer w2) ++ String LF "")%string) w2)
      else if Ascii.eqb (nth (num_bytes - 1) (buffer w1) NUL) LF
      then Some (0%Z, k1, set_buffer (store (num_bytes - 1) NUL (buffer w1)) w1)
      else Some (0%Z, k1,
                 emit (Stdout (String LF ""))
                      (set_buffer (store num_bytes NUL (buffer w1)) w1))
  end.

(* ------------------------------------------------------------------ *)
(** ** One round of the execution handshake *)

(** The two threads strictly alternate under the mutex: the input thread
    shows the prompt and reads; if the read succeeded it raises
    [new_command] and sleeps until the command thread has run
    [command_execute] and lowered the flag again.  One round is therefore
    the sequential composition below.  [None]: [input_read] did not
    return.  The environment of a round is the fuel for the draining
    loop, the kernel's answers to stdio's block reads and to the [read]
    of [input_read], and the environment of the command. *)
Record round_env : Type := mk_round_env {
  drain_fuel : nat;
  stdio_fill : list ascii -> nat;
  read_ans : read_answer;
  exec : exec_env
}.

Definition handshake_round (env : round_env) (k : kernel) (w : shell)
  : option (kernel * outcome) :=
  match input_read (drain_fuel env) (stdio_fill env) (read_ans env) k (prompt_show w)
  with
  | None => None
  | Some (rc, k1, w1) =>
      if (rc =? 0)%Z
      then
        match command_execute (exec env) (set_new_command true w1) with
        | Returned rc' w2 => Some (k1, Returned rc' (set_new_command false w2))
        | o => Some (k1, o)
        end
      else Some (k1, Returned rc w1)
  end.

(** The [while (! interrupt)] loops of both threads, one environment per
    round.  [None]: a round did not complete, or the rounds ran out while
    the shell was still waiting for input. *)
Fixpoint shell_run (envs : list round_env) (k : kernel) (w : shell)
  : option (kernel * shell) :=
  if interrupt w then Some (k, w)
  else
    match envs with
    | [] => None
    | env :: envs' =>
        match handshake_round env k w with
        | Some (k1, Returned _ w1) => shell_run envs' k1 w1
        | _ => None
        end
    end.

(* ------------------------------------------------------------------ *)
(** ** Vocabulary of the statements *)

(** The notification printed for a job, and the reading of its flag. *)
Definition notify (p : process_t) : event := Stdout (msg_finished (pid p)).

Definition terminated (p : process_t) : bool := negb (running p).

(** What flipping the flag of the first job with identifier [c] means,
    said without the loop. *)
Inductive flipped (c : Z) : list process_t -> list process_t -> Prop :=
| flipped_none : forall l,
    (forall q, In q l -> pid q <> c) ->
    flipped c l l
| flipped_first : forall pre p post,
    (forall q, In q pre -> pid q <> c) ->
    pid p = c ->
    flipped c (pre ++ p :: post) (pre ++ mk_process false c :: post).

(** The shell after the children [zs] have been reaped one after the
    other. *)
Definition reap_all (zs : list positive) (w : shell) : shell :=
  fold_left (fun w z => reap_one (Z.pos z) w) zs w.

(** The last control character in [pre], or NUL when there is none. *)
Definition last_marker (pre : list ascii) : ascii :=
  fold_left (fun t c => if is_marker c then c else t) pre NUL.

(** A token begins at offset [i] of the line [l]: the character there is
    an ordinary one and the character before it, if any, is not. *)
Definition begins_token (l : list ascii) (i : nat) : bool :=
  ordinary (nth i l NUL) && negb (ordinary (last (firstn i l) NUL)).

(** The three things a token can be to the command. *)
Inductive role : Type := Argument | InputTarget | OutputTarget.

Definition role_eqb (a b : role) : bool :=
  match a, b with
  | Argument, Argument | InputTarget, InputTarget | OutputTarget, OutputTarget => true
  | _, _ => false
  end.

(** The role that the most recent control character [t] gives to a token
    that begins after it. *)
Definition role_after (t : ascii) : role :=
  if Ascii.eqb t REDIR_IN then InputTarget
  else if Ascii.eqb t REDIR_OUT then OutputTarget
  else Argument.

(** A token with role [r] begins at offset [i] of [l]: the role is decided
    by the most recent control character before [i]. *)
Definition has_role (r : role) (l : list ascii) (i : nat) : bool :=
  begins_token l i && role_eqb r (role_after (last_marker (firstn i l))).

(** The offsets, in increasing order, of the tokens of [l] with role [r]. *)
Definition tokens_with (r : role) (l : list ascii) : list nat :=
  filter (has_role r l) (seq 0 (List.length l)).

(** The last element of a list, if any. *)
Definition last_opt {A : Type} (l : list A) : option A :=
  fold_left (fun _ x => Some x) l None.

(** What the scan leaves of a character in the buffer. *)
Definition blank (c : ascii) : ascii := if ordinary c then c else NUL.

(** Every character of a string satisfies [P]. *)
Fixpoint string_all (P : ascii -> bool) (s : string) : bool :=
  match s with
  | EmptyString => true
  | String c s' => P c && string_all P s'
  end.

(** The loop invariant of [parse_loop] after the prefix [pre] of the line
    has been scanned. *)
Definition parsed (pre : list ascii) (st : parser) : Prop :=
  p_args st = tokens_with Argument pre
  /\ p_in st = last_opt (tokens_with InputTarget pre)
  /\ p_out st = last_opt (tokens_with OutputTarget pre)
  /\ token st = last_marker pre
  /\ ignore st = ordinary (last pre NUL)
  /\ p_run_in_bg st = existsb (Ascii.eqb RUN_IN_BG) pre
  /\ scanned st = map blank pre.

(** The argument array has a free slot left. *)
Definition roomy (st : parser) : Prop :=
  List.length (p_args st) < args_size st.

(** The last character of [pre] that is neither white space nor NUL, or
    NUL when there is none: what a token that begins right after [pre]
    comes immediately after. *)
Definition last_significant (pre : list ascii) : ascii :=
  fold_left (fun t c => if isspace c || is_nul c then t else c) pre NUL.

(** The reading of the routing rule in which only the token that begins
    immediately after a redirect marker is a redirect target, and every
    other token is an argument. *)
Definition role_immediately_after (l : list ascii) (i : nat) : role :=
  role_after (last_significant (firstn i l)).

(** A parsed command read back as strings: the argument vector, the
    output target, the input target and the background flag. *)
Definition command_strings (cmd : command_t) (buf : list ascii)
  : list string * option string * option string * bool :=
  (match args cmd with
   | Some slots => argv_strings buf slots
   | None => []
   end,
   option_map (cstring_at buf) (out cmd),
   option_map (cstring_at buf) (in_ cmd),
   run_in_bg cmd).

(** White space or NUL: what separates tokens without being a marker. *)
Definition is_blank (c : ascii) : Prop := isspace c || is_nul c = true.

(** An answer of [waitpid] that ends the foreground wait: a failure, or a
    status that says exited or killed by a signal. *)
Definition settles (r : wait_result) : bool :=
  match r with
  | WaitFail _ => true
  | WaitOk _ status => WIFEXITED status || WIFSIGNALED status
  end.

(** The bytes one [read] of at most [BUFFER_SIZE] bytes puts in the
    buffer when the kernel offers [n] of them, and what then remains
    unread. *)
Definition delivered (n : nat) (k : kernel) : list ascii :=
  fst (read_stdin n BUFFER_SIZE k).

Definition unread (n : nat) (k : kernel) : list ascii :=
  stdin (snd (read_stdin n BUFFER_SIZE k)).

(** The echo of the synthesized [exit] at end of input. *)
Definition echo_exit : event := Stdout (CMD_EXIT ++ String LF "")%string.

(** The longest prefix of [l] whose characters all satisfy [P]. *)
Fixpoint take_while (P : ascii -> bool) (l : list ascii) : list ascii :=
  match l with
  | [] => []
  | c :: l' => if P c then c :: take_while P l' else []
  end.

(** The word of the line [l] that starts at offset [off]: the ordinary
    characters from there up to the first separator or control
    character. *)
Definition word_at (l : list ascii) (off : nat) : string :=
  string_of_list_ascii (take_while ordinary (skipn off l)).

(** The allocations a line with [nargs] argument tokens asks for: the
    initial array of [ARGS_SIZE] slots, and each doubling that becomes
    necessary when the array is full. *)
Definition allocations_ok (alloc : nat -> bool) (nargs : nat) : Prop :=
  alloc ARGS_SIZE = true
  /\ forall k, 1 <= k -> ARGS_SIZE * 2 ^ (k - 1) <= nargs ->
               alloc (ARGS_SIZE * 2 ^ k) = true.

(** The capacity of the argument array is the initial size doubled some
    number of times, every doubling having been granted. *)
Definition granted (alloc : nat -> bool) (st : parser) : Prop :=
  exists k, args_size st = ARGS_SIZE * 2 ^ k
            /\ forall j, 1 <= j <= k -> alloc (ARGS_SIZE * 2 ^ j) = true.

(** The array has not grown beyond twice what it holds. *)
Definition snug (st : parser) : Prop :=
  args_size st = ARGS_SIZE \/ args_size st <= 2 * List.length (p_args st).

(** What [getchar] still has to go through: the bytes stdio holds in its
    buffer, then those unread on the descriptor. *)
Definition ahead (k : kernel) (w : shell) : list ascii :=
  stdin_buf w ++ stdin k.

(** A block read on input that is not exhausted delivers at least one
    byte. *)
Definition productive (fill : list ascii -> nat) : Prop :=
  forall rest : list ascii, rest <> [] -> 0 < fill rest.

(** Two ways a kernel answers stdio's block read.  A terminal in canonical
    mode hands over the unread input up to and including the first
    newline; a pipe whose writer is done, or a file, hands over a block of
    [blk] bytes (fewer at the end of the input). *)
Definition by_line (rest : list ascii) : nat :=
  S (List.length (take_while (fun c => negb (Ascii.eqb c LF)) rest)).

Definition by_block (blk : nat) (rest : list ascii) : nat := blk.

(** The redirect target of the command that tokens with role [r] compete
    for. *)
Definition target (r : role) (cmd : command_t) : option nat :=
  match r with
  | InputTarget => in_ cmd
  | OutputTarget => out cmd
  | Argument => None
  end.

(** The job [p] is one of the children [zs] that the reaper collects. *)
Definition reaped (zs : list positive) (p : process_t) : bool :=
  existsb (fun z => (Z.pos z =? pid p)%Z) zs.

(** A job once the children [zs] have been collected: terminated if it
    was one of them, unchanged otherwise. *)
Definition after_reaping (zs : list positive) (p : process_t) : process_t :=
  if reaped zs p then mk_process false (pid p) else p.

(** The foreground child is not a registered job. *)
Definition foreground_unregistered (w : shell) : Prop :=
  fg_pid w = (-1)%Z \/ ~ In (fg_pid w) (map pid (bg_head w)).

(** The state of the shell between two commands: no foreground job, the
    hand-over flag down, every registered pid positive, and the line
    buffer at its full size. *)
Definition at_rest (w : shell) : Prop :=
  fg_pid w = (-1)%Z
  /\ new_command w = false
  /\ Forall (fun p => (0 < pid p)%Z) (bg_head w)
  /\ List.length (buffer w) = BUFFER_SIZE.

(** A line without its final newline, when it has one. *)
Definition chomp (bs : list ascii) : list ascii :=
  if Ascii.eqb (last bs NUL) LF then removelast bs else bs.

(** A text laid out in the line buffer: the text, then NULs up to
    [BUFFER_SIZE]. *)
Definition padded (text : list ascii) : list ascii :=
  text ++ repeat NUL (BUFFER_SIZE - List.length text).

(* ------------------------------------------------------------------ *)
(** ** [signals.c]: the letter counter of the two-process demo *)
Module Signals.

(** The two file-scope variables. *)
Record state : Type := mk_state {
  interrupt : bool;
  curr_char : Z
}.

(** The byte an [int] becomes when it is stored in a [char]. *)
Definition to_char (z : Z) : ascii := ascii_of_N (Z.to_N (z mod 256)).

Definition code (c : ascii) : Z := Z.of_N (N_of_ascii c).

(** [next_char]: hand out the current letter and step to the next one,
    going back to 'A' after 'Z'. *)
Definition next_char (s : state) : ascii * state :=
  let old_char := to_char (curr_char s) in
  let c := (curr_char s + 1)%Z in
  (old_char,
   mk_state (interrupt s) (if (c >? code "Z")%Z then code "A" else c)).

(** [sig_handler]: SIGUSR1 raises [interrupt], SIGUSR2 restarts the
    letters. *)
Definition sig_handler (sig_num : signal) (s : state) : state :=
  if signal_eqb sig_num SIGUSR1 then mk_state true (curr_char s)
  else if signal_eqb sig_num SIGUSR2 then mk_state (interrupt s) (code "A")
  else s.

(** The letters handed out by [n] successive calls, and the state they
    leave. *)
Fixpoint letters (n : nat) (s : state) : list ascii * state :=
  match n with
  | O => ([], s)
  | S n' =>
      let '(c, s1) := next_char s in
      let '(cs, s2) := letters n' s1 in
      (c :: cs, s2)
  end.

(** The counter holds a capital letter. *)
Definition on_a_letter (s : state) : Prop :=
  (code "A" <= curr_char s <= code "Z")%Z.

(** The [i]-th capital letter after the one with code [c], cyclically. *)
Definition letter_after (c : Z) (i : nat) : Z :=
  (code "A" + (c - code "A" + Z.of_nat i) mod 26)%Z.

End Signals.

(* ================================================================== *)
(** * Properties *)

(* ------------------------------------------------------------------ *)
(** ** The prompt and the registry *)

Lemma prompt_loop_spec :
  forall curr before evs,
    prompt_loop before curr evs
    = (evs ++ map notify (filter terminated curr), before ++ filter running curr).
Proof.
  induction curr as [|p next IH]; intros before evs; simpl.
  - now rewrite !app_nil_r.
  - unfold terminated at 1.
    destruct (running p); simpl; rewrite IH.
    + now rewrite <- app_assoc.
    + now rewrite <- app_assoc.
Qed.

(** C5.  [prompt_show] prints one line for each job of the registry whose
    flag says terminated, in registry order, followed by the prompt.  The
    line is an opening bracket, the pid in decimal, a closing bracket, a
    space, the word Finished and a newline; the prompt is a dollar sign
    and a space.  The registry it leaves consists of exactly the jobs
    whose flag says running, each as it was; nothing else changes. *)
Theorem prompt_show_reports_and_removes_terminated :
  forall w : shell,
    trace (prompt_show w)
    = trace w
      ++ map (fun p => Stdout ("[" ++ fmt_d (pid p) ++ "] Finished"
                               ++ String "010" "")%string)
             (filter terminated (bg_head w))
      ++ [Stdout "$ "]
    /\ bg_head (prompt_show w) = filter running (bg_head w)
    /\ (forall p, In p (bg_head (prompt_show w)) <-> In p (bg_head w) /\ running p = true)
    /\ fg_pid (prompt_show w) = fg_pid w
    /\ interrupt (prompt_show w) = interrupt w
    /\ buffer (prompt_show w) = buffer w
    /\ new_command (prompt_show w) = new_command w
    /\ stdin_buf (prompt_show w) = stdin_buf w.
Proof.
  intros w. unfold prompt_show.
  rewrite prompt_loop_spec. simpl.
  split; [reflexivity|]. split; [reflexivity|].
  split; [|repeat split; reflexivity].
  intros p. rewrite filter_In. tauto.
Qed.

Lemma prompt_show_reports_witness :
  let w := mk_shell false (-1)
                    [mk_process false 13; mk_process true 12; mk_process false 7]
                    (repeat NUL BUFFER_SIZE) false [] [] in
  trace (prompt_show w)
  = [Stdout ("[13] Finished" ++ String "010" "")%string;
     Stdout ("[7] Finished" ++ String "010" "")%string;
     Stdout "$ "]
  /\ bg_head (prompt_show w) = [mk_process true 12].
Proof.
  intros w.
  destruct (prompt_show_reports_and_removes_terminated w) as (Ht & Hb & _).
  rewrite Ht, Hb. split; reflexivity.
Defined.

(* ------------------------------------------------------------------ *)
(** ** The exit built-in *)

Lemma exit_kills_spec :
  forall l, exit_kills l = map (fun p => Kill (pid p) SIGKILL) (filter running l).
Proof.
  induction l as [|p l IH]; simpl; [reflexivity|].
  destruct (running p); simpl; now rewrite IH.
Qed.

(** C2, as stated, fails: a job whose flag already says terminated is in
    the registry when [exit] is handled, and no signal is sent to it. *)
Lemma exit_handler_spares_terminated_job :
  let w := mk_shell false (-1) [mk_process false 7; mk_process true 8]
                    (repeat NUL BUFFER_SIZE) false [] [] in
  In (mk_process false 7) (bg_head w)
  /\ ~ In (Kill 7 SIGKILL) (trace (command_exit_handler w))
  /\ trace (command_exit_handler w) = [Kill 8 SIGKILL].
Proof.
  simpl. split; [now left|]. split; [|reflexivity].
  intros [H|[]]. discriminate H.
Qed.

(** C2, amended.  The exit handler sends SIGKILL to exactly the jobs of
    the registry whose flag says running, in registry order, and to no
    other; it leaves the registry empty and the interrupt flag set, and
    touches nothing else. *)
Theorem exit_handler_kills_running_jobs :
  forall w : shell,
    trace (command_exit_handler w)
    = trace w ++ map (fun p => Kill (pid p) SIGKILL) (filter running (bg_head w))
    /\ bg_head (command_exit_handler w) = []
    /\ interrupt (command_exit_handler w) = true
    /\ fg_pid (command_exit_handler w) = fg_pid w
    /\ buffer (command_exit_handler w) = buffer w
    /\ new_command (command_exit_handler w) = new_command w.
Proof.
  intros w. unfold command_exit_handler; simpl.
  rewrite exit_kills_spec. repeat split; reflexivity.
Qed.

(* ------------------------------------------------------------------ *)
(** ** The reaper *)

Lemma mark_terminated_flipped :
  forall c l, flipped c l (mark_terminated c l).
Proof.
  intros c l; induction l as [|p next IH]; simpl.
  - apply flipped_none. intros q [].
  - destruct (Z.eqb_spec (pid p) c) as [E|N].
    + rewrite E. apply (@flipped_first c [] p next); [intros q []|exact E].
    + remember (mark_terminated c next) as m eqn:Hm. clear Hm.
      destruct IH as [l Hall | pre p' post Hpre Hp].
      * apply flipped_none.
        intros q [<-|Hq]; [exact N|]. apply Hall. exact Hq.
      * apply (@flipped_first c (p :: pre) p' post); [|exact Hp].
        intros q [<-|Hq]; [exact N|]. apply Hpre. exact Hq.
Qed.

Lemma mark_terminated_pids :
  forall c l, map pid (mark_terminated c l) = map pid l.
Proof.
  intros c l; induction l as [|p next IH]; simpl; [reflexivity|].
  destruct (pid p =? c)%Z; simpl; [reflexivity|now rewrite IH].
Qed.

Lemma reap_one_pids :
  forall c w, map pid (bg_head (reap_one c w)) = map pid (bg_head w).
Proof.
  intros c w. unfold reap_one.
  destruct (c =? fg_pid w)%Z; simpl; [reflexivity|apply mark_terminated_pids].
Qed.

Lemma reap_one_frame :
  forall c w,
    trace (reap_one c w) = trace w /\ buffer (reap_one c w) = buffer w
    /\ interrupt (reap_one c w) = interrupt w
    /\ new_command (reap_one c w) = new_command w.
Proof.
  intros c w. unfold reap_one. destruct (c =? fg_pid w)%Z; simpl; tauto.
Qed.

Lemma reap_loop_drains :
  forall fuel k w,
    List.length (zombies k) < fuel ->
    reap_loop fuel k w = Some (mk_kernel (stdin k) [], reap_all (zombies k) w).
Proof.
  induction fuel as [|fuel IH]; intros [inp zs] w Hlt; [inversion Hlt|].
  destruct zs as [|z zs]; simpl in *.
  - reflexivity.
  - rewrite IH; [reflexivity|simpl; lia].
Qed.

Lemma reap_all_pids :
  forall zs w, map pid (bg_head (reap_all zs w)) = map pid (bg_head w).
Proof.
  induction zs as [|z zs IH]; intros w; simpl; [reflexivity|].
  unfold reap_all in IH. rewrite IH. apply reap_one_pids.
Qed.

Lemma reap_all_trace :
  forall zs w, trace (reap_all zs w) = trace w.
Proof.
  induction zs as [|z zs IH]; intros w; simpl; [reflexivity|].
  unfold reap_all in IH. rewrite IH. apply reap_one_frame.
Qed.

(** C4.  One activation of the handler for SIGCHLD, given enough fuel for
    the [waitpid] calls it makes, returns with no terminated child left
    unreaped; the shell it leaves is the one obtained by treating the
    reaped identifiers one after the other, where treating [c] means: if
    [c] is the foreground token, the token becomes [-1] and the registry
    is untouched; otherwise the token is untouched and the first job with
    identifier [c] (if any) has its flag flipped to terminated.  The
    registry keeps the same jobs in the same order throughout, and
    nothing is printed. *)
Theorem sigchld_reaps_all_and_only_flips_flags :
  forall (fuel : nat) (k : kernel) (w : shell),
    List.length (zombies k) < fuel ->
    sig_handler fuel SIGCHLD k w
    = Some (mk_kernel (stdin k) [], reap_all (zombies k) w)
    /\ map pid (bg_head (reap_all (zombies k) w)) = map pid (bg_head w)
    /\ trace (reap_all (zombies k) w) = trace w
    /\ (forall (c : Z) (v : shell),
           (c = fg_pid v ->
            fg_pid (reap_one c v) = (-1)%Z /\ bg_head (reap_one c v) = bg_head v)
           /\ (c <> fg_pid v ->
               fg_pid (reap_one c v) = fg_pid v
               /\ flipped c (bg_head v) (bg_head (reap_one c v)))).
Proof.
  intros fuel k w Hlt. split; [|split; [|split]].
  - unfold sig_handler; simpl. rewrite (reap_loop_drains k w Hlt). reflexivity.
  - apply reap_all_pids.
  - apply reap_all_trace.
  - intros c v. unfold reap_one. split; intros H.
    + rewrite (proj2 (Z.eqb_eq c (fg_pid v)) H). simpl. split; reflexivity.
    + rewrite (proj2 (Z.eqb_neq c (fg_pid v)) H). simpl.
      split; [reflexivity|apply mark_terminated_flipped].
Qed.

Lemma sigchld_reaps_all_witness :
  let k := mk_kernel [] [5%positive; 9%positive; 6%positive] in
  let w := mk_shell false 9 [mk_process true 6; mk_process true 5; mk_process true 4]
                    (repeat NUL BUFFER_SIZE) false [] [] in
  sig_handler 4 SIGCHLD k w
  = Some (mk_kernel [] [],
          mk_shell false (-1) [mk_process false 6; mk_process false 5; mk_process true 4]
                   (repeat NUL BUFFER_SIZE) false [] []).
Proof.
  intros k w.
  destruct (@sigchld_reaps_all_and_only_flips_flags 4 k w) as [H _].
  - simpl. lia.
  - rewrite H. reflexivity.
Defined.

(* ------------------------------------------------------------------ *)
(** ** The parser *)

Lemma space_not_marker :
  forall c, isspace c || is_nul c = true -> is_marker c = false.
Proof.
  intros [b0 b1 b2 b3 b4 b5 b6 b7].
  destruct b0, b1, b2, b3, b4, b5, b6, b7; vm_compute; congruence.
Qed.

Lemma space_not_ordinary :
  forall c, isspace c || is_nul c = true -> ordinary c = false.
Proof. intros c H. unfold ordinary. now rewrite H. Qed.

Lemma marker_not_ordinary :
  forall c, is_marker c = true -> ordinary c = false.
Proof. intros c H. unfold ordinary. rewrite H. apply andb_false_r. Qed.

Lemma ordinary_intro :
  forall c, isspace c || is_nul c = false -> is_marker c = false -> ordinary c = true.
Proof. intros c H1 H2. unfold ordinary. now rewrite H1, H2. Qed.

Lemma last_marker_snoc :
  forall pre c,
    last_marker (pre ++ [c]) = if is_marker c then c else last_marker pre.
Proof. intros pre c. unfold last_marker. now rewrite fold_left_app. Qed.

Lemma last_opt_snoc :
  forall (A : Type) (l : list A) (x : A), last_opt (l ++ [x]) = Some x.
Proof. intros A l x. unfold last_opt. now rewrite fold_left_app. Qed.

Lemma last_opt_In :
  forall (A : Type) (l : list A) (x : A), last_opt l = Some x -> In x l.
Proof.
  intros A l x. destruct (rev l) as [|y r] eqn:E.
  - apply (f_equal (@rev A)) in E. rewrite rev_involutive in E. subst l.
    discriminate.
  - apply (f_equal (@rev A)) in E. rewrite rev_involutive in E. subst l.
    simpl. rewrite last_opt_snoc. intros [= <-].
    apply in_or_app. right. now left.
Qed.

Lemma has_role_prefix :
  forall r pre suf i,
    i < List.length pre -> has_role r (pre ++ suf) i = has_role r pre i.
Proof.
  intros r pre suf i Hi. unfold has_role, begins_token.
  rewrite app_nth1 by exact Hi.
  rewrite firstn_app.
  replace (i - List.length pre) with 0 by lia.
  simpl. now rewrite app_nil_r.
Qed.

Lemma has_role_here :
  forall r pre c,
    has_role r (pre ++ [c]) (List.length pre)
    = ordinary c && negb (ordinary (last pre NUL))
      && role_eqb r (role_after (last_marker pre)).
Proof.
  intros r pre c. unfold has_role, begins_token.
  rewrite app_nth2 by lia. rewrite Nat.sub_diag. simpl nth.
  rewrite firstn_app, Nat.sub_diag, firstn_all. simpl.
  now rewrite app_nil_r.
Qed.

Lemma tokens_with_snoc :
  forall r pre c,
    tokens_with r (pre ++ [c])
    = tokens_with r pre
      ++ (if has_role r (pre ++ [c]) (List.length pre) then [List.length pre] else []).
Proof.
  intros r pre c. unfold tokens_with.
  rewrite length_app. simpl List.length. rewrite Nat.add_1_r, seq_S, filter_app.
  simpl. f_equal.
  apply filter_ext_in. intros i Hi. apply in_seq in Hi.
  apply has_role_prefix. lia.
Qed.

Lemma parsed_init : parsed [] parser_init /\ roomy parser_init.
Proof. unfold parsed, roomy, parser_init, ARGS_SIZE; simpl. repeat split. lia. Qed.

#[local] Arguments Ascii.eqb : simpl never.
#[local] Arguments ordinary : simpl never.
#[local] Arguments is_marker : simpl never.

Ltac snoc_step :=
  rewrite ?tokens_with_snoc, ?has_role_here, ?last_marker_snoc, ?last_last,
    ?existsb_app, ?map_app; simpl existsb; simpl map.

Lemma parsed_space :
  forall pre st c,
    parsed pre st -> isspace c || is_nul c = true ->
    parsed (pre ++ [c]) (parse_space st).
Proof.
  intros pre st c (Ha & Hi & Ho & Ht & Hg & Hb & Hs) Hc.
  pose proof (space_not_marker c Hc) as Hm.
  pose proof (space_not_ordinary c Hc) as Hn.
  assert (Hbg : Ascii.eqb RUN_IN_BG c = false).
  { unfold is_marker in Hm. rewrite (Ascii.eqb_sym c RUN_IN_BG) in Hm.
    destruct (Ascii.eqb RUN_IN_BG c); [discriminate Hm|reflexivity]. }
  unfold parsed, parse_space, blank; simpl. snoc_step.
  rewrite Hm, Hn, Hbg. simpl. rewrite !app_nil_r, !orb_false_r.
  repeat split; try assumption. now rewrite Hs.
Qed.

Lemma parsed_marker :
  forall pre st c,
    parsed pre st -> is_marker c = true ->
    parsed (pre ++ [c]) (parse_marker c st).
Proof.
  intros pre st c (Ha & Hi & Ho & Ht & Hg & Hb & Hs) Hm.
  pose proof (marker_not_ordinary c Hm) as Hn.
  unfold parsed, parse_marker, blank; simpl. snoc_step.
  rewrite Hm, Hn. simpl. rewrite !app_nil_r, !orb_false_r.
  repeat split; try assumption.
  - rewrite Hb, (Ascii.eqb_sym c RUN_IN_BG).
    destruct (Ascii.eqb RUN_IN_BG c); [now rewrite orb_true_r|now rewrite orb_false_r].
  - now rewrite Hs.
Qed.

Lemma parsed_begin :
  forall pre st c,
    parsed pre st -> ordinary c = true ->
    parsed (pre ++ [c]) (parse_begin (List.length pre) c st).
Proof.
  intros pre st c (Ha & Hi & Ho & Ht & Hg & Hb & Hs) Hn.
  assert (Hm : is_marker c = false).
  { unfold ordinary in Hn. apply andb_prop in Hn. destruct Hn as [_ Hn].
    now apply negb_true_iff in Hn. }
  assert (Hbg : Ascii.eqb RUN_IN_BG c = false).
  { unfold is_marker in Hm. rewrite (Ascii.eqb_sym c RUN_IN_BG) in Hm.
    destruct (Ascii.eqb RUN_IN_BG c); [discriminate Hm|reflexivity]. }
  unfold parsed, parse_begin, blank.
  snoc_step. rewrite Hm, Hn, Hbg, !orb_false_r, <- Hg, <- Ht. unfold role_after.
  destruct (ignore st); simpl.
  - rewrite !app_nil_r. repeat split; try assumption. now rewrite Hs.
  - destruct (Ascii.eqb (token st) REDIR_IN); simpl.
    + rewrite !app_nil_r, last_opt_snoc. repeat split; try assumption. now rewrite Hs.
    + destruct (Ascii.eqb (token st) REDIR_OUT); simpl.
      * rewrite !app_nil_r, last_opt_snoc. repeat split; try assumption. now rewrite Hs.
      * rewrite !app_nil_r. repeat split; try assumption.
        -- now rewrite Ha.
        -- now rewrite Hs.
Qed.

Lemma parse_begin_length :
  forall i c st,
    List.length (p_args (parse_begin i c st)) <= S (List.length (p_args st))
    /\ args_size (parse_begin i c st) = args_size st.
Proof.
  intros i c st. unfold parse_begin.
  destruct (ignore st); simpl; [lia|].
  destruct (Ascii.eqb (token st) REDIR_IN); simpl; [lia|].
  destruct (Ascii.eqb (token st) REDIR_OUT); simpl; [lia|].
  rewrite length_app. simpl. lia.
Qed.

Section ParserCorrect.

Variable alloc : nat -> bool.
Hypothesis alloc_ok : forall n, alloc n = true.

(** With allocations that succeed the loop runs to the end of the line
    and keeps the invariant. *)
Lemma parse_loop_parsed :
  forall cs pre st,
    parsed pre st -> roomy st ->
    exists st',
      parse_loop alloc (List.length pre) cs st = (st', true, [])
      /\ parsed (pre ++ cs) st' /\ roomy st'.
Proof.
  induction cs as [|c cs IH]; intros pre st Hp Hr.
  - exists st. rewrite app_nil_r. simpl. auto.
  - replace (pre ++ c :: cs) with ((pre ++ [c]) ++ cs)
      by (rewrite <- app_assoc; reflexivity).
    assert (HS : S (List.length pre) = List.length (pre ++ [c]))
      by (rewrite length_app; simpl; lia).
    simpl parse_loop. rewrite HS.
    destruct (isspace c || is_nul c) eqn:Hc.
    + apply IH; [now apply parsed_space|exact Hr].
    + destruct (is_marker c) eqn:Hm.
      * apply IH; [now apply parsed_marker|exact Hr].
      * pose proof (ordinary_intro c Hc Hm) as Hn.
        pose proof (@parsed_begin pre st c Hp Hn) as Hp1.
        destruct (parse_begin_length (List.length pre) c st) as [Hl Hsz].
        destruct (args_size (parse_begin (List.length pre) c st)
                  <=? List.length (p_args (parse_begin (List.length pre) c st)))
          eqn:Hfull.
        -- rewrite alloc_ok. apply IH; [exact Hp1|].
           unfold roomy in *. simpl. apply Nat.leb_le in Hfull. lia.
        -- apply IH; [exact Hp1|].
           unfold roomy. apply Nat.leb_gt in Hfull. exact Hfull.
Qed.

End ParserCorrect.

(** [command_parse] with allocations that succeed, in closed form. *)
Lemma command_parse_spec :
  forall (alloc : nat -> bool) (w : shell),
    (forall n, alloc n = true) ->
    let l := firstn EFFECTIVE_BUFFER_SIZE (buffer w) in
    exists n,
      command_parse alloc w
      = (0%Z,
         mk_command (existsb (Ascii.eqb RUN_IN_BG) l)
                    (Some (map Some (tokens_with Argument l) ++ repeat None (S n)))
                    (last_opt (tokens_with OutputTarget l))
                    (last_opt (tokens_with InputTarget l)),
         set_buffer (map blank l ++ skipn EFFECTIVE_BUFFER_SIZE (buffer w)) w).
Proof.
  intros alloc w Hok l. unfold command_parse. rewrite Hok. simpl negb. cbv iota.
  destruct parsed_init as [Hp0 Hr0].
  destruct (@parse_loop_parsed alloc Hok l [] parser_init Hp0 Hr0) as (st & Hrun & Hp & Hr).
  simpl List.length in Hrun. fold l. rewrite Hrun. simpl app in Hp.
  destruct Hp as (Ha & Hi & Ho & Ht & Hg & Hb & Hs).
  unfold roomy in Hr.
  exists (args_size st - List.length (p_args st) - 1).
  replace (S (args_size st - List.length (p_args st) - 1))
    with (args_size st - List.length (p_args st)) by lia.
  rewrite <- Ha, <- Hi, <- Ho, <- Hb, <- Hs. reflexivity.
Qed.

Lemma has_role_unique :
  forall r1 r2 l i, has_role r1 l i = true -> has_role r2 l i = true -> r1 = r2.
Proof.
  intros r1 r2 l i H1 H2. unfold has_role in *.
  apply andb_prop in H1. apply andb_prop in H2.
  destruct H1 as [_ H1]. destruct H2 as [_ H2].
  destruct r1, r2, (role_after (last_marker (firstn i l)));
    simpl in *; congruence.
Qed.

Lemma tokens_with_disjoint :
  forall r1 r2 l i,
    In i (tokens_with r1 l) -> In i (tokens_with r2 l) -> r1 = r2.
Proof.
  intros r1 r2 l i H1 H2. unfold tokens_with in *.
  apply filter_In in H1. apply filter_In in H2.
  apply (has_role_unique r1 r2 l i); tauto.
Qed.

Lemma last_significant_snoc :
  forall pre c,
    last_significant (pre ++ [c])
    = if isspace c || is_nul c then last_significant pre else c.
Proof. intros pre c. unfold last_significant. now rewrite fold_left_app. Qed.

(** When the last significant character before an offset is not part of
    a token, it is the most recent control character (or there is none
    of either). *)
Lemma last_significant_is_last_marker :
  forall pre,
    ordinary (last_significant pre) = false ->
    last_significant pre = last_marker pre.
Proof.
  induction pre as [|c pre IH] using rev_ind; intros H; [reflexivity|].
  rewrite last_significant_snoc in *. rewrite last_marker_snoc.
  destruct (isspace c || is_nul c) eqn:Hc.
  - rewrite (space_not_marker c Hc). now apply IH.
  - destruct (is_marker c) eqn:Hm; [reflexivity|].
    rewrite (ordinary_intro c Hc Hm) in H. discriminate H.
Qed.

(** How the parser routes the tokens.  With allocations that succeed,
    parsing any buffer succeeds and every token of the first 512 bytes
    is routed by the most recent control character before it: the
    argument array holds, in order, the offsets of the tokens that begin
    while that character is absent or is the background marker, followed
    by at least one NULL; the input-redirect target is the last token
    that begins while it is the input-redirect marker, the
    output-redirect target the last token that begins while it is the
    output-redirect marker (absent when there is no such token).  No
    token has two roles.  A token that does not follow another token
    directly has the role that the reading "only the token immediately
    after a redirect marker is a target" gives it. *)
Lemma parse_routes_tokens_by_last_marker :
  forall (alloc : nat -> bool) (w : shell),
    (forall n, alloc n = true) ->
    let l := firstn EFFECTIVE_BUFFER_SIZE (buffer w) in
    exists cmd w' n,
      command_parse alloc w = (0%Z, cmd, w')
      /\ args cmd = Some (map Some (tokens_with Argument l) ++ repeat None (S n))
      /\ in_ cmd = last_opt (tokens_with InputTarget l)
      /\ out cmd = last_opt (tokens_with OutputTarget l)
      /\ (forall i, In i (tokens_with Argument l) ->
                    in_ cmd <> Some i /\ out cmd <> Some i)
      /\ (forall i, in_ cmd = Some i -> out cmd <> Some i)
      /\ (forall i r, In i (tokens_with r l) ->
                      ordinary (last_significant (firstn i l)) = false ->
                      r = role_immediately_after l i).
Proof.
  intros alloc w Hok l.
  destruct (@command_parse_spec alloc w Hok) as [n Hn]. fold l in Hn.
  eexists. eexists. exists n. split; [exact Hn|]. simpl.
  split; [reflexivity|]. split; [reflexivity|]. split; [reflexivity|].
  split; [|split].
  - intros i Hi. split; intros H; apply last_opt_In in H;
      pose proof (tokens_with_disjoint _ _ _ _ Hi H) as E; discriminate E.
  - intros i Hi H. apply last_opt_In in Hi. apply last_opt_In in H.
    pose proof (tokens_with_disjoint _ _ _ _ Hi H) as E. discriminate E.
  - intros i r Hi Hsig. unfold tokens_with in Hi. apply filter_In in Hi.
    destruct Hi as [_ Hr]. unfold has_role in Hr. apply andb_prop in Hr.
    destruct Hr as [_ Hr]. unfold role_immediately_after.
    rewrite (last_significant_is_last_marker _ Hsig).
    destruct r, (role_after (last_marker (firstn i l)));
      simpl in Hr; congruence.
Qed.

(** The last of the selected elements of a segment of the naturals is
    the greatest of them. *)
Lemma last_opt_filter_seq :
  forall (f : nat -> bool) (a n j : nat),
    In j (filter f (seq a n)) ->
    exists j', last_opt (filter f (seq a n)) = Some j' /\ j <= j'.
Proof.
  intros f a n. induction n as [|n IH]; intros j Hj; [contradiction|].
  rewrite seq_S, filter_app in *. cbn [filter] in *.
  destruct (f (a + n)) eqn:Hf.
  - rewrite last_opt_snoc. exists (a + n). split; [reflexivity|].
    apply in_app_or in Hj. destruct Hj as [Hj|[<-|[]]]; [|lia].
    apply filter_In in Hj. destruct Hj as [Hj _]. apply in_seq in Hj. lia.
  - rewrite app_nil_r in *. now apply IH.
Qed.

Lemma begins_token_inside :
  forall (l : list ascii) (j : nat), begins_token l j = true -> j < List.length l.
Proof.
  intros l j H. unfold begins_token in H. apply andb_prop in H. destruct H as [H _].
  destruct (Nat.lt_ge_cases j (List.length l)) as [Hlt|Hge]; [exact Hlt|].
  rewrite (nth_overflow l NUL Hge) in H. discriminate H.
Qed.

(** After an ordinary character, some token has begun since the most
    recent control character. *)
Lemma token_since_last_marker :
  forall pre : list ascii,
    ordinary (last_significant pre) = true ->
    exists i, i < List.length pre
              /\ begins_token pre i = true
              /\ last_marker (firstn i pre) = last_marker pre.
Proof.
  induction pre as [|c pre IH] using rev_ind; intros H; [discriminate H|].
  rewrite last_significant_snoc in H. rewrite last_marker_snoc, length_app.
  cbn [List.length].
  assert (Hkeep : forall i, i < List.length pre ->
                            begins_token (pre ++ [c]) i = begins_token pre i
                            /\ firstn i (pre ++ [c]) = firstn i pre).
  { intros i Hi. unfold begins_token.
    rewrite app_nth1 by exact Hi. rewrite firstn_app.
    replace (i - List.length pre) with 0 by lia. cbn [firstn].
    rewrite app_nil_r. auto. }
  destruct (isspace c || is_nul c) eqn:Hc.
  - rewrite (space_not_marker c Hc).
    destruct (IH H) as (i & Hi & Hb & Hm). exists i.
    destruct (Hkeep i Hi) as [-> ->]. split; [lia|]. auto.
  - destruct (is_marker c) eqn:Hm.
    + rewrite (marker_not_ordinary c Hm) in H. discriminate H.
    + destruct (ordinary (last pre NUL)) eqn:Hlast.
      * assert (Hsig : ordinary (last_significant pre) = true).
        { destruct pre as [|c' pre'] using rev_ind; [discriminate Hlast|].
          rewrite last_last in Hlast. rewrite last_significant_snoc.
          destruct (isspace c' || is_nul c') eqn:Hc'; [|exact Hlast].
          rewrite (space_not_ordinary c' Hc') in Hlast. discriminate Hlast. }
        destruct (IH Hsig) as (i & Hi & Hb & Hmk). exists i.
        destruct (Hkeep i Hi) as [-> ->]. split; [lia|]. auto.
      * exists (List.length pre). split; [lia|]. split.
        -- unfold begins_token. rewrite app_nth2, Nat.sub_diag by lia. cbn [nth].
           rewrite H. rewrite firstn_app, Nat.sub_diag, firstn_all. cbn [firstn].
           rewrite app_nil_r, Hlast. reflexivity.
        -- rewrite firstn_app, Nat.sub_diag, firstn_all. cbn [firstn].
           now rewrite app_nil_r.
Qed.

Lemma begins_token_firstn :
  forall (l : list ascii) (i j : nat),
    i < j -> j <= List.length l ->
    begins_token (firstn j l) i = begins_token l i
    /\ firstn i (firstn j l) = firstn i l.
Proof.
  intros l i j Hi Hj.
  assert (Hf : firstn i (firstn j l) = firstn i l).
  { rewrite firstn_firstn. f_equal. lia. }
  split; [|exact Hf]. unfold begins_token. rewrite Hf. f_equal.
  rewrite <- (firstn_skipn j l) at 2. rewrite app_nth1; [reflexivity|].
  rewrite length_firstn. lia.
Qed.

(** C3 fails on the code.  Once a redirect marker has been read, the
    parser keeps treating tokens as targets of that redirection until the
    next control character: [token] is never cleared when the target is
    taken.  So take any token [j] of the line that does not begin
    immediately after a redirect marker (the claim makes it an argument)
    while the most recent control character before it is a redirect
    marker.  Parsing succeeds, and the token is not appended to the
    argument array: it, or a later token, is the target of that
    redirection.  And a token [i] has begun between that marker and [j]
    (the file name that was meant) which is now neither the target nor an
    argument: it is dropped without a trace. *)
Theorem tokens_after_a_redirect_target_are_not_arguments :
  forall (alloc : nat -> bool) (w : shell),
    (forall n, alloc n = true) ->
    let l := firstn EFFECTIVE_BUFFER_SIZE (buffer w) in
    forall (r : role) (j : nat),
      begins_token l j = true ->
      role_immediately_after l j = Argument ->
      role_after (last_marker (firstn j l)) = r ->
      r <> Argument ->
      exists cmd w' slots,
        command_parse alloc w = (0%Z, cmd, w')
        /\ args cmd = Some slots
        /\ ~ In (Some j) slots
        /\ (exists j', target r cmd = Some j' /\ j <= j')
        /\ (exists i, i < j
                      /\ begins_token l i = true
                      /\ last_marker (firstn i l) = last_marker (firstn j l)
                      /\ ~ In (Some i) slots
                      /\ target r cmd <> Some i).
Proof.
  intros alloc w Hok l r j Hbeg Himm Hrole Hr.
  destruct (@command_parse_spec alloc w Hok) as [n Hn]. fold l in Hn.
  pose proof (begins_token_inside l j Hbeg) as Hinside.
  assert (Hmember : forall i, i < List.length l -> begins_token l i = true ->
                              last_marker (firstn i l) = last_marker (firstn j l) ->
                              In i (tokens_with r l)).
  { intros i Hi Hb Hm. unfold tokens_with. apply filter_In. split.
    - apply in_seq. lia.
    - unfold has_role. rewrite Hb, Hm, Hrole. destruct r; reflexivity. }
  assert (Hj : In j (tokens_with r l)) by (now apply Hmember).
  destruct (last_opt_filter_seq _ _ _ _ Hj) as (j' & Hlast & Hle).
  fold (tokens_with r l) in Hlast.
  assert (Htarget : target r
                      (mk_command (existsb (Ascii.eqb RUN_IN_BG) l)
                         (Some (map Some (tokens_with Argument l) ++ repeat None (S n)))
                         (last_opt (tokens_with OutputTarget l))
                         (last_opt (tokens_with InputTarget l)))
                    = Some j').
  { destruct r; [now elim Hr|exact Hlast|exact Hlast]. }
  assert (Hnot : forall i, In i (tokens_with r l) ->
                           ~ In (Some i)
                               (map Some (tokens_with Argument l) ++ repeat None (S n))).
  { intros i Hi Hin. apply in_app_or in Hin. destruct Hin as [Hin|Hin].
    - apply in_map_iff in Hin. destruct Hin as (x & [= ->] & Hx).
      apply Hr. symmetry. exact (tokens_with_disjoint _ _ _ _ Hx Hi).
    - apply repeat_spec in Hin. discriminate Hin. }
  assert (Hsig : ordinary (last_significant (firstn j l)) = true).
  { destruct (ordinary (last_significant (firstn j l))) eqn:E; [reflexivity|].
    exfalso. apply Hr. rewrite <- Hrole, <- Himm. unfold role_immediately_after.
    now rewrite (last_significant_is_last_marker _ E). }
  destruct (token_since_last_marker _ Hsig) as (i & Hi & Hbi & Hmi).
  rewrite length_firstn in Hi.
  assert (Hij : i < j) by lia.
  destruct (@begins_token_firstn l i j Hij) as [Hb1 Hf1]; [lia|].
  rewrite Hb1 in Hbi. rewrite Hf1 in Hmi.
  eexists. eexists. eexists. split; [exact Hn|].
  split; [reflexivity|]. split; [now apply Hnot|]. split.
  - exists j'. split; [exact Htarget|exact Hle].
  - exists i. split; [exact Hij|]. split; [exact Hbi|]. split; [exact Hmi|].
    split.
    + apply Hnot. apply Hmember; [lia|exact Hbi|exact Hmi].
    + rewrite Htarget. intros [= ->]. lia.
Qed.

(** The line [cat < a b]: the token [a] begins immediately after the
    input-redirect marker and the token [b] does not; yet [b] is what the
    command gets as input target, [a] is dropped and [b] is not among the
    arguments, which are just [cat]. *)
Lemma tokens_after_a_redirect_target_witness :
  let w := mk_shell false (-1) [] (buffer_of "cat < a b") false [] [] in
  let l := firstn EFFECTIVE_BUFFER_SIZE (buffer w) in
  exists cmd w',
    command_parse (fun _ => true) w = (0%Z, cmd, w')
    /\ begins_token l 6 = true /\ role_immediately_after l 6 = InputTarget
    /\ begins_token l 8 = true /\ role_immediately_after l 8 = Argument
    /\ args cmd = Some [Some 0; None; None; None]
    /\ argv_strings (buffer w') [Some 0; None; None; None] = ["cat"%string]
    /\ in_ cmd = Some 8
    /\ cstring_at (buffer w') 8 = "b"%string
    /\ cstring_at (buffer w') 6 = "a"%string
    /\ out cmd = None.
Proof.
  intros w l.
  destruct (@tokens_after_a_redirect_target_are_not_arguments
              (fun _ => true) w (fun _ => eq_refl) InputTarget 8)
    as (cmd & w' & slots & Hrun & _); try (vm_compute; reflexivity).
  - discriminate.
  - exists cmd, w'. split; [exact Hrun|].
    vm_compute in Hrun. injection Hrun as <- <-.
    vm_compute. repeat split; reflexivity.
Defined.

(** On a run of separators the loop only writes NULs. *)
Lemma parse_loop_blank :
  forall (alloc : nat -> bool) (cs : list ascii) (i : nat) (st : parser),
    Forall is_blank cs ->
    ignore st = false ->
    parse_loop alloc i cs st
    = (mk_parser (p_run_in_bg st) (p_args st) (args_size st) (p_out st) (p_in st)
                 (token st) false (scanned st ++ repeat NUL (List.length cs)),
       true, []).
Proof.
  intros alloc cs. induction cs as [|c cs IH]; intros i st Hall Hig.
  - simpl. rewrite app_nil_r. destruct st; simpl in *. now rewrite Hig.
  - inversion Hall as [|c' cs' Hc Hcs]; subst. unfold is_blank in Hc.
    simpl parse_loop. rewrite Hc.
    rewrite (IH (S i) (parse_space st) Hcs eq_refl). simpl.
    now rewrite <- app_assoc.
Qed.

Lemma command_parse_blank :
  forall (alloc : nat -> bool) (w : shell),
    alloc ARGS_SIZE = true ->
    Forall is_blank (firstn EFFECTIVE_BUFFER_SIZE (buffer w)) ->
    command_parse alloc w
    = (0%Z,
       mk_command false (Some [None; None; None; None]) None None,
       set_buffer (repeat NUL (List.length (firstn EFFECTIVE_BUFFER_SIZE (buffer w)))
                   ++ skipn EFFECTIVE_BUFFER_SIZE (buffer w)) w).
Proof.
  intros alloc w Hok Hall. unfold command_parse. rewrite Hok. simpl negb. cbv iota.
  rewrite (parse_loop_blank alloc 0 parser_init Hall eq_refl). reflexivity.
Qed.

(** C8.  If the 512 bytes of the buffer that the parser scans are all
    white space or NUL and the argument array can be allocated, then
    parsing succeeds with an argument array made of NULLs only (an empty
    argument vector), no redirect target and no background flag, and
    [command_execute] returns 0 without doing anything that can be
    observed: the trace is unchanged (no [fork], no [kill], no message),
    the registry, the foreground token, the interrupt flag and
    [new_command] are unchanged; the scanned bytes of the buffer are all
    NUL afterwards. *)
Theorem blank_line_is_a_no_op :
  forall (env : exec_env) (w : shell),
    alloc env ARGS_SIZE = true ->
    Forall is_blank (firstn EFFECTIVE_BUFFER_SIZE (buffer w)) ->
    (exists cmd w',
        command_parse (alloc env) w = (0%Z, cmd, w')
        /\ command_strings cmd (buffer w') = ([], None, None, false))
    /\ (exists w',
           command_execute env w = Returned 0 w'
           /\ trace w' = trace w
           /\ bg_head w' = bg_head w
           /\ fg_pid w' = fg_pid w
           /\ interrupt w' = interrupt w
           /\ new_command w' = new_command w
           /\ buffer w'
              = repeat NUL (List.length (firstn EFFECTIVE_BUFFER_SIZE (buffer w)))
                ++ skipn EFFECTIVE_BUFFER_SIZE (buffer w)).
Proof.
  intros env w Hok Hall. split.
  - eexists. eexists. split; [apply (command_parse_blank _ _ Hok Hall)|].
    reflexivity.
  - unfold command_execute. rewrite (command_parse_blank _ _ Hok Hall).
    simpl. eexists. split; [reflexivity|]. simpl. repeat split; reflexivity.
Qed.

Lemma blank_line_is_a_no_op_witness :
  let env := mk_exec_env (fun _ => true) 1234 true
                         (mk_child_env true true true true true) [] in
  let w := mk_shell false (-1) [mk_process true 40]
                    (buffer_of (String " " (String "009" " "))) false [] [] in
  command_execute env w
  = Returned 0 (mk_shell false (-1) [mk_process true 40]
                         (repeat NUL BUFFER_SIZE) false [] []).
Proof.
  intros env w.
  destruct (@blank_line_is_a_no_op env w) as [_ (w' & Hrun & _)].
  - reflexivity.
  - vm_compute. repeat constructor.
  - rewrite Hrun. vm_compute in Hrun. injection Hrun as <-. reflexivity.
Defined.

Lemma Forall_skipn_keep :
  forall (A : Type) (Q : A -> Prop) (n : nat) (l : list A),
    Forall Q l -> Forall Q (skipn n l).
Proof.
  intros A Q n. induction n as [|n IH]; intros l H; [exact H|].
  destruct l as [|x l]; [exact H|]. inversion H; subst. simpl. now apply IH.
Qed.

Lemma cstring_all :
  forall (P : ascii -> bool) (l : list ascii),
    Forall (fun c => is_nul c = true \/ P c = true) l ->
    string_all P (cstring l) = true.
Proof.
  intros P l H. induction H as [|c l Hc Hl IH]; simpl; [reflexivity|].
  destruct (is_nul c) eqn:E; simpl; [reflexivity|].
  destruct Hc as [Hc|Hc]; [discriminate Hc|]. now rewrite Hc, IH.
Qed.

Lemma blank_nul_or_ordinary :
  forall c, is_nul (blank c) = true \/ ordinary (blank c) = true.
Proof.
  intros c. unfold blank. destruct (ordinary c) eqn:E; [right; exact E|left; reflexivity].
Qed.

(** After a successful parse of a buffer whose unscanned tail is NUL,
    whatever offset a pointer holds, the string it points to is made of
    ordinary characters only. *)
Lemma parsed_strings_ordinary :
  forall (alloc : nat -> bool) (w : shell) (off : nat),
    (forall n, alloc n = true) ->
    Forall (fun c => c = NUL) (skipn EFFECTIVE_BUFFER_SIZE (buffer w)) ->
    string_all ordinary
               (cstring_at (buffer (snd (command_parse alloc w))) off) = true.
Proof.
  intros alloc w off Hok Htail.
  destruct (@command_parse_spec alloc w Hok) as [n Hn]. rewrite Hn. simpl.
  unfold cstring_at. apply cstring_all. apply Forall_skipn_keep.
  apply Forall_app. split.
  - apply Forall_forall. intros c Hc. apply in_map_iff in Hc.
    destruct Hc as (c0 & <- & _). apply blank_nul_or_ordinary.
  - apply Forall_forall. intros c Hc.
    rewrite Forall_forall in Htail. rewrite (Htail c Hc). now left.
Qed.

Lemma argv_strings_all :
  forall (P : string -> Prop) (buf : list ascii) (slots : list (option nat)),
    (forall off, P (cstring_at buf off)) ->
    forall t, In t (argv_strings buf slots) -> P t.
Proof.
  intros P buf slots HP. induction slots as [|[off|] slots IH]; simpl; intros t Ht.
  - contradiction.
  - destruct Ht as [<-|Ht]; [apply HP|now apply IH].
  - contradiction.
Qed.

(** C9.  Whatever else the shell holds, and provided the initial array of
    four slots can be allocated: parsing the buffer [echo hi > out.txt]
    gives the argument vector [echo], [hi], the output target [out.txt],
    no input target and no background flag; parsing [sleep 5 &] gives the
    argument vector [sleep], [5], no target and the background flag set.
    In general, after a successful parse of a buffer that ends in NUL
    every argument string and both target strings consist of ordinary
    characters only, so none of them contains the background marker and
    none of them is the marker. *)
Theorem parse_examples_and_marker_never_a_token :
  (forall (alloc : nat -> bool) (w : shell),
      alloc ARGS_SIZE = true ->
      buffer w = buffer_of "echo hi > out.txt" ->
      exists cmd w',
        command_parse alloc w = (0%Z, cmd, w')
        /\ command_strings cmd (buffer w')
           = (["echo"; "hi"]%string, Some "out.txt"%string, None, false))
  /\ (forall (alloc : nat -> bool) (w : shell),
         alloc ARGS_SIZE = true ->
         buffer w = buffer_of "sleep 5 &" ->
         exists cmd w',
           command_parse alloc w = (0%Z, cmd, w')
           /\ command_strings cmd (buffer w')
              = (["sleep"; "5"]%string, None, None, true))
  /\ (forall (alloc : nat -> bool) (w : shell),
         (forall n, alloc n = true) ->
         Forall (fun c => c = NUL) (skipn EFFECTIVE_BUFFER_SIZE (buffer w)) ->
         exists cmd w',
           command_parse alloc w = (0%Z, cmd, w')
           /\ forall t : string,
               (exists slots, args cmd = Some slots /\ In t (argv_strings (buffer w') slots))
               \/ option_map (cstring_at (buffer w')) (out cmd) = Some t
               \/ option_map (cstring_at (buffer w')) (in_ cmd) = Some t ->
               string_all ordinary t = true
               /\ string_all (fun c => negb (Ascii.eqb c RUN_IN_BG)) t = true
               /\ t <> String RUN_IN_BG EmptyString).
Proof.
  split; [|split].
  - intros alloc [i f b buf nc tr] Hok Hbuf. simpl in Hbuf. subst buf.
    unfold command_parse. rewrite Hok. simpl negb. cbv iota.
    eexists. eexists. split; [vm_compute; reflexivity|]. vm_compute. reflexivity.
  - intros alloc [i f b buf nc tr] Hok Hbuf. simpl in Hbuf. subst buf.
    unfold command_parse. rewrite Hok. simpl negb. cbv iota.
    eexists. eexists. split; [vm_compute; reflexivity|]. vm_compute. reflexivity.
  - intros alloc w Hok Htail.
    pose proof (fun off => @parsed_strings_ordinary alloc w off Hok Htail) as Hord.
    destruct (@command_parse_spec alloc w Hok) as [n Hn].
    rewrite Hn in Hord. simpl snd in Hord.
    eexists. eexists. split; [exact Hn|].
    assert (Hgen : forall t, string_all ordinary t = true ->
                             string_all ordinary t = true
                             /\ string_all (fun c => negb (Ascii.eqb c RUN_IN_BG)) t = true
                             /\ t <> String RUN_IN_BG EmptyString).
    { intros t Ht. split; [exact Ht|]. split.
      - induction t as [|c t IH]; simpl in *; [reflexivity|].
        apply andb_prop in Ht. destruct Ht as [Hc Ht]. rewrite (IH Ht), andb_true_r.
        destruct (Ascii.eqb c RUN_IN_BG) eqn:E; [|reflexivity].
        apply Ascii.eqb_eq in E. subst c. discriminate Hc.
      - intros ->. discriminate Ht. }
    intros t [(slots & Hs & Hin)|[Ho|Hi]]; apply Hgen.
    + revert t Hin. apply argv_strings_all. exact Hord.
    + simpl in Ho. destruct (last_opt (tokens_with OutputTarget _)); [|discriminate Ho].
      simpl in Ho. injection Ho as <-. apply Hord.
    + simpl in Hi. destruct (last_opt (tokens_with InputTarget _)); [|discriminate Hi].
      simpl in Hi. injection Hi as <-. apply Hord.
Qed.

Lemma parse_examples_witness :
  (exists cmd w',
      command_parse (fun _ => true)
                    (mk_shell false (-1) [] (buffer_of "echo hi > out.txt") false [] [])
      = (0%Z, cmd, w')
      /\ command_strings cmd (buffer w')
         = (["echo"; "hi"]%string, Some "out.txt"%string, None, false))
  /\ (exists cmd w',
         command_parse (fun _ => true)
                       (mk_shell false (-1) [] (buffer_of "sleep 5 &") false [] [])
         = (0%Z, cmd, w')
         /\ command_strings cmd (buffer w') = (["sleep"; "5"]%string, None, None, true))
  /\ (exists cmd w',
         command_parse (fun _ => true)
                       (mk_shell false (-1) [] (buffer_of "a&b") false [] [])
         = (0%Z, cmd, w')
         /\ forall off,
             option_map (cstring_at (buffer w')) (in_ cmd) = Some off ->
             off <> String RUN_IN_BG EmptyString).
Proof.
  destruct parse_examples_and_marker_never_a_token as (H1 & H2 & H3).
  split; [|split].
  - apply H1; reflexivity.
  - apply H2; reflexivity.
  - destruct (H3 (fun _ => true)
                 (mk_shell false (-1) [] (buffer_of "a&b") false [] [])
                 (fun _ => eq_refl)) as (cmd & w' & Hrun & Hall).
    + vm_compute. repeat constructor.
    + exists cmd, w'. split; [exact Hrun|].
      intros t Ht. apply Hall. right. right. exact Ht.
Defined.

(* ------------------------------------------------------------------ *)
(** ** The foreground wait *)

Lemma wait_loop_pending :
  forall (pending rest : list wait_result) (w : shell),
    Forall (fun r => settles r = false) pending ->
    wait_loop (pending ++ rest) w = wait_loop rest w.
Proof.
  induction pending as [|r pending IH]; intros rest w H; [reflexivity|].
  inversion H as [|r' p' Hr Hp]; subst.
  destruct r as [e|p st]; simpl in Hr; [discriminate Hr|].
  simpl. rewrite Hr. simpl. now apply IH.
Qed.

Lemma wait_loop_clears_on_failure :
  forall (answers : list wait_result) (w w' : shell),
    wait_loop answers w = Some (false, w') -> fg_pid w' = (-1)%Z.
Proof.
  induction answers as [|r answers IH]; intros w w' H; simpl in H; [discriminate H|].
  destruct r as [e|p st].
  - destruct (negb (errno_eqb e ECHILD)); [|discriminate H].
    injection H as <-. reflexivity.
  - destruct (negb (WIFEXITED st || WIFSIGNALED st)); [now apply (IH w)|discriminate H].
Qed.

Lemma wait_loop_returns :
  forall (answers : list wait_result) (w : shell),
    existsb settles answers = true ->
    exists b w', wait_loop answers w = Some (b, w').
Proof.
  induction answers as [|r answers IH]; intros w H; simpl in H; [discriminate H|].
  destruct r as [e|p st]; simpl.
  - destruct (negb (errno_eqb e ECHILD)); eauto.
  - simpl in H. destruct (WIFEXITED st || WIFSIGNALED st); simpl in *; eauto.
Qed.

(** C1.  For a foreground command whose [fork] succeeded ([c_pid > 0]),
    whatever answers that do not end the wait come first:
    - if the wait then fails with ECHILD, [command_fork] returns 0 with the
      foreground token at [-1], and nothing but the [fork] is on the trace;
    - if it fails with any other error, [command_fork] reports it with
      [perror ("waitpid")] and returns [-1], the token again at [-1];
    - if it reports a child that exited or was killed, [command_fork]
      returns 0 with the token at [-1];
    - whenever some answer ends the wait, [command_fork] returns;
    - whenever it returns, the foreground token is [-1].
    Apart from the token and the trace the shell is left as it was. *)
Theorem foreground_wait_treats_echild_as_completion :
  forall (c_pid : Z) (node_ok : bool) (env : child_env)
         (command : command_t) (w : shell),
    run_in_bg command = false ->
    (c_pid > 0)%Z ->
    (forall pending rest,
        Forall (fun r => settles r = false) pending ->
        command_fork c_pid node_ok env (pending ++ WaitFail ECHILD :: rest) command w
        = Returned 0 (set_fg_pid (-1) (emit (Fork c_pid) w)))
    /\ (forall pending rest e,
           Forall (fun r => settles r = false) pending ->
           e <> ECHILD ->
           command_fork c_pid node_ok env (pending ++ WaitFail e :: rest) command w
           = Returned (-1)
                      (set_fg_pid (-1) (emit (Perror "waitpid")
                                             (set_fg_pid c_pid (emit (Fork c_pid) w)))))
    /\ (forall pending rest p st,
           Forall (fun r => settles r = false) pending ->
           WIFEXITED st || WIFSIGNALED st = true ->
           command_fork c_pid node_ok env (pending ++ WaitOk p st :: rest) command w
           = Returned 0 (set_fg_pid (-1) (emit (Fork c_pid) w)))
    /\ (forall answers,
           existsb settles answers = true ->
           exists rc w', command_fork c_pid node_ok env answers command w = Returned rc w')
    /\ (forall answers rc w',
           command_fork c_pid node_ok env answers command w = Returned rc w' ->
           fg_pid w' = (-1)%Z).
Proof.
  intros c_pid node_ok env command w Hfg Hpos.
  assert (Hlt : (c_pid <? 0)%Z = false) by (apply Z.ltb_ge; lia).
  assert (Hgt : (c_pid >? 0)%Z = true) by (apply Z.gtb_lt; lia).
  unfold command_fork. rewrite Hlt, Hgt, Hfg. simpl negb. cbv iota.
  split; [|split; [|split; [|split]]].
  - intros pending rest Hp. rewrite (wait_loop_pending _ _ Hp). reflexivity.
  - intros pending rest e Hp He. rewrite (wait_loop_pending _ _ Hp). simpl.
    destruct e; try reflexivity. now elim He.
  - intros pending rest p st Hp Hst. rewrite (wait_loop_pending _ _ Hp). simpl.
    rewrite Hst. reflexivity.
  - intros answers Hs.
    destruct (wait_loop_returns answers (set_fg_pid c_pid (emit (Fork c_pid) w)) Hs)
      as (b & w' & E).
    rewrite E. destruct b; eauto.
  - intros answers rc w' H.
    destruct (wait_loop answers (set_fg_pid c_pid (emit (Fork c_pid) w)))
      as [[[|] w1]|] eqn:E.
    + injection H as _ <-. reflexivity.
    + injection H as _ <-. now apply wait_loop_clears_on_failure in E.
    + discriminate H.
Qed.

Lemma foreground_wait_witness :
  let command := mk_command false (Some [Some 0; None; None; None]) None None in
  let w := mk_shell false (-1) [] (buffer_of "ls") false [] [] in
  command_fork 77 true (mk_child_env true true true true true)
               [WaitOk 77 (StStopped SIGUSR1); WaitFail ECHILD] command w
  = Returned 0 (mk_shell false (-1) [] (buffer_of "ls") false [Fork 77] []).
Proof.
  intros command w.
  destruct (@foreground_wait_treats_echild_as_completion
              77 true (mk_child_env true true true true true) command w
              eq_refl eq_refl) as (H & _).
  apply (H [WaitOk 77 (StStopped SIGUSR1)] []).
  repeat constructor.
Defined.

(* ------------------------------------------------------------------ *)
(** ** Reading a line *)

Lemma code_is_LF :
  forall c : ascii,
    (Z.of_nat (nat_of_ascii c) =? Z.of_nat (nat_of_ascii LF))%Z = Ascii.eqb c LF.
Proof.
  intros c. destruct (Ascii.eqb_spec c LF) as [->|N].
  - apply Z.eqb_refl.
  - apply Z.eqb_neq. intros H. apply Nat2Z.inj in H. apply N.
    rewrite <- (ascii_nat_embedding c), H. apply ascii_nat_embedding.
Qed.

Lemma some_triple_inv :
  forall (A B C : Type) (a a' : A) (b b' : B) (c c' : C),
    Some (a, b, c) = Some (a', b', c') -> a = a' /\ b = b' /\ c = c'.
Proof. intros A B C a a' b b' c c' H. injection H as -> -> ->. auto. Qed.

Ltac some_triple H :=
  apply some_triple_inv in H; destruct H as (? & ? & ?); subst.

Lemma EOF_is_not_LF : (EOF =? Z.of_nat (nat_of_ascii LF))%Z = false.
Proof. reflexivity. Qed.

Lemma firstn_skipn_length :
  forall (A : Type) (m : nat) (l : list A),
    firstn m l ++ skipn (List.length (firstn m l)) l = l.
Proof.
  intros A m. induction m as [|m IH]; intros l; [reflexivity|].
  destruct l as [|x l]; [reflexivity|].
  cbn [firstn List.length skipn app]. f_equal. apply IH.
Qed.

Lemma set_stdin_buf_same : forall w, set_stdin_buf (stdin_buf w) w = w.
Proof. intros w. destruct w. reflexivity. Qed.

(** [getchar] only takes bytes: it touches nothing of the shell but
    stdio's buffer, and no child. *)
Lemma getchar_frame :
  forall fill k w c k' w',
    getchar fill k w = (c, k', w') ->
    w' = set_stdin_buf (stdin_buf w') w /\ zombies k' = zombies k.
Proof.
  intros fill k w c k' w'. unfold getchar.
  destruct (stdin_buf w) as [|b rest] eqn:Hb.
  - cbv zeta. destruct (firstn (fill (stdin k)) (stdin k)) as [|b rest];
      intros [= _ <- <-]; split; try reflexivity.
    symmetry. apply set_stdin_buf_same.
  - intros [= _ <- <-]. split; reflexivity.
Qed.

Lemma drain_line_frame :
  forall fuel fill k w k' w',
    drain_line fuel fill k w = Some (k', w') ->
    w' = set_stdin_buf (stdin_buf w') w /\ zombies k' = zombies k.
Proof.
  induction fuel as [|fuel IH]; intros fill k w k' w' H; [discriminate H|].
  cbn [drain_line] in H.
  destruct (getchar fill k w) as [[c k1] w1] eqn:G.
  destruct (getchar_frame _ _ _ G) as [Hw Hz].
  destruct (negb (c =? Z.of_nat (nat_of_ascii LF))%Z).
  - destruct (IH _ _ _ _ _ H) as [Hw' Hz']. split; [|congruence].
    rewrite Hw', Hw. reflexivity.
  - injection H as <- <-. split; assumption.
Qed.

(** Without a newline ahead the draining loop never ends. *)
Lemma drain_line_no_newline :
  forall (fuel : nat) (fill : list ascii -> nat) (k : kernel) (w : shell),
    ~ In LF (ahead k w) -> drain_line fuel fill k w = None.
Proof.
  induction fuel as [|fuel IH]; intros fill k w H; [reflexivity|].
  cbn [drain_line]. unfold getchar. unfold ahead in H.
  destruct (stdin_buf w) as [|c rest] eqn:Hb.
  - cbv zeta. cbn [app] in H.
    pose proof (firstn_skipn_length (fill (stdin k)) (stdin k)) as Hsplit.
    destruct (firstn (fill (stdin k)) (stdin k)) as [|c rest].
    + rewrite EOF_is_not_LF. cbn [negb]. apply IH. unfold ahead.
      rewrite Hb. exact H.
    + rewrite code_is_LF.
      destruct (Ascii.eqb_spec c LF) as [->|N].
      * elim H. rewrite <- Hsplit. now left.
      * cbn [negb]. apply IH. unfold ahead. cbn [stdin stdin_buf set_stdin_buf].
        intros Hin. apply H. rewrite <- Hsplit. now right.
  - rewrite code_is_LF.
    destruct (Ascii.eqb_spec c LF) as [->|N]; [elim H; now left|].
    cbn [negb]. apply IH. unfold ahead. cbn [stdin_buf set_stdin_buf].
    intros Hin. apply H. now right.
Qed.



(** On a terminal nothing is read ahead: when stdio's buffer was empty,
    it is empty again after the newline, and the descriptor continues
    right after it. *)
Lemma take_while_not_LF :
  forall pre rest,
    ~ In LF pre ->
    take_while (fun c => negb (Ascii.eqb c LF)) (pre ++ LF :: rest) = pre.
Proof.
  induction pre as [|c pre IH]; intros rest Hno; cbn [app take_while].
  - now rewrite Ascii.eqb_refl.
  - destruct (Ascii.eqb_spec c LF) as [->|N]; [elim Hno; now left|].
    cbn [negb]. f_equal. apply IH. intros H. apply Hno. now right.
Qed.


Lemma by_block_productive : forall blk, 0 < blk -> productive (by_block blk).
Proof. intros blk H rest _. exact H. Qed.

Lemma delivered_length :
  forall n k, List.length (delivered n k) <= BUFFER_SIZE.
Proof.
  intros n k. unfold delivered, read_stdin. cbn [fst].
  rewrite length_firstn. lia.
Qed.

(** [input_read] on a successful [read], with the bytes named. *)
Lemma input_read_bytes :
  forall fuel fill n k w,
    input_read fuel fill (ReadBytes n) k w
    = let bs := delivered n k in
      let k1 := mk_kernel (unread n k) (zombies k) in
      let buf := overwrite bs (repeat NUL BUFFER_SIZE) in
      if EFFECTIVE_BUFFER_SIZE <? List.length bs
      then
        let w2 := mk_shell (interrupt w) (fg_pid w) (bg_head w) buf (new_command w)
                           (trace w ++ [Stderr msg_too_long]) (stdin_buf w) in
        if negb (Ascii.eqb (nth (List.length bs - 1) buf NUL) LF)
        then match drain_line fuel fill k1 w2 with
             | None => None
             | Some (k2, w3) => Some ((-1)%Z, k2, w3)
             end
        else Some ((-1)%Z, k1, w2)
      else if List.length bs =? 0
      then Some (0%Z, k1,
                 mk_shell (interrupt w) (fg_pid w) (bg_head w)
                          (strcpy buf CMD_EXIT) (new_command w)
                          (trace w ++ [Stdout (cstring (strcpy buf CMD_EXIT)
                                               ++ String LF "")%string])
                          (stdin_buf w))
      else if Ascii.eqb (nth (List.length bs - 1) buf NUL) LF
      then Some (0%Z, k1,
                 mk_shell (interrupt w) (fg_pid w) (bg_head w)
                          (store (List.length bs - 1) NUL buf) (new_command w)
                          (trace w) (stdin_buf w))
      else Some (0%Z, k1,
                 mk_shell (interrupt w) (fg_pid w) (bg_head w)
                          (store (List.length bs) NUL buf) (new_command w)
                          (trace w ++ [Stdout (String LF "")]) (stdin_buf w)).
Proof. reflexivity. Qed.

Lemma in_skipn_in :
  forall (A : Type) (x : A) (n : nat) (l : list A), In x (skipn n l) -> In x l.
Proof.
  intros A x n l H. rewrite <- (firstn_skipn n l). apply in_or_app. now right.
Qed.

Lemma in_firstn_in :
  forall (A : Type) (x : A) (n : nat) (l : list A), In x (firstn n l) -> In x l.
Proof.
  intros A x n l H. rewrite <- (firstn_skipn n l). apply in_or_app. now left.
Qed.

Lemma delivered_full :
  forall n k,
    BUFFER_SIZE <= n -> BUFFER_SIZE <= List.length (stdin k) ->
    delivered n k = firstn BUFFER_SIZE (stdin k)
    /\ List.length (delivered n k) = BUFFER_SIZE
    /\ unread n k = skipn BUFFER_SIZE (stdin k).
Proof.
  intros n k Hn Hk. unfold delivered, unread, read_stdin. cbn [fst snd stdin].
  rewrite (Nat.min_r n BUFFER_SIZE Hn).
  rewrite length_firstn, (Nat.min_l _ _ Hk). auto.
Qed.

Lemma overwrite_nth_front :
  forall (bs l : list ascii) (i : nat),
    i < List.length bs -> nth i (overwrite bs l) NUL = nth i bs NUL.
Proof. intros bs l i H. unfold overwrite. now apply app_nth1. Qed.

(** C6 fails on the code when the over-long input has no newline left:
    a [read] that fills the whole buffer from an input without any
    newline (and with none waiting in stdio's buffer) is followed by a
    draining loop that no amount of fuel completes, however stdio's block
    reads are answered, so [input_read] never returns to its caller. *)
Theorem too_long_input_without_newline_never_returns :
  forall (fuel n : nat) (fill : list ascii -> nat) (k : kernel) (w : shell),
    BUFFER_SIZE <= n ->
    BUFFER_SIZE <= List.length (stdin k) ->
    ~ In LF (stdin k) ->
    ~ In LF (stdin_buf w) ->
    input_read fuel fill (ReadBytes n) k w = None.
Proof.
  intros fuel n fill k w Hn Hk Hno Hbuf.
  destruct (delivered_full k Hn Hk) as (Hbs & Hlen & Hun).
  rewrite input_read_bytes. cbv zeta. rewrite Hlen.
  replace (EFFECTIVE_BUFFER_SIZE <? BUFFER_SIZE) with true by reflexivity.
  rewrite overwrite_nth_front
    by (rewrite Hlen; unfold BUFFER_SIZE; lia).
  assert (Hlast : Ascii.eqb (nth (BUFFER_SIZE - 1) (delivered n k) NUL) LF = false).
  { apply Ascii.eqb_neq. intros E. apply Hno.
    apply (@in_firstn_in _ LF BUFFER_SIZE). rewrite <- Hbs, <- E.
    apply nth_In. rewrite Hlen. unfold BUFFER_SIZE. lia. }
  rewrite Hlast. cbn [negb].
  rewrite drain_line_no_newline; [reflexivity|].
  unfold ahead. cbn [stdin stdin_buf]. rewrite Hun. intros Hin.
  apply in_app_or in Hin. destruct Hin as [Hin|Hin]; [now apply Hbuf|].
  apply Hno. now apply in_skipn_in in Hin.
Qed.

Lemma too_long_input_without_newline_witness :
  input_read 1000 (by_block 4096) (ReadBytes 600)
             (mk_kernel (repeat "a"%char 600) []) shell_init
  = None.
Proof.
  apply too_long_input_without_newline_never_returns.
  - unfold BUFFER_SIZE. lia.
  - cbn [stdin]. rewrite repeat_length. unfold BUFFER_SIZE. lia.
  - cbn [stdin]. intros H. apply repeat_spec in H. discriminate H.
  - intros [].
Defined.



(** A read of no byte at all: the end of input. *)
Lemma input_read_eof :
  forall fuel fill n k w,
    delivered n k = [] ->
    input_read fuel fill (ReadBytes n) k w
    = Some (0%Z, mk_kernel (stdin k) (zombies k),
            emit echo_exit (set_buffer (buffer_of CMD_EXIT) w)).
Proof.
  intros fuel fill n k w Hbs. rewrite input_read_bytes. cbv zeta.
  assert (Hun : unread n k = stdin k).
  { unfold unread, delivered, read_stdin in *. cbn [fst snd stdin] in *.
    now rewrite Hbs. }
  rewrite Hbs, Hun. reflexivity.
Qed.


(** Whenever [input_read] returns after a successful [read], it returns
    [-1] exactly when the read filled the buffer, and then the only thing
    it has written is the too-long diagnostic. *)
Lemma input_read_verdict :
  forall fuel fill n k w rc k' w',
    input_read fuel fill (ReadBytes n) k w = Some (rc, k', w') ->
    (rc = (-1)%Z /\ List.length (delivered n k) = BUFFER_SIZE
     /\ trace w' = trace w ++ [Stderr msg_too_long])
    \/ (rc = 0%Z /\ List.length (delivered n k) <= EFFECTIVE_BUFFER_SIZE).
Proof.
  intros fuel fill n k w rc k' w'. rewrite input_read_bytes. cbv zeta.
  pose proof (delivered_length n k) as Hmax.
  destruct (Nat.ltb_spec EFFECTIVE_BUFFER_SIZE (List.length (delivered n k)))
    as [Hlong|Hshort].
  - assert (Hfull : List.length (delivered n k) = BUFFER_SIZE)
      by (unfold BUFFER_SIZE, EFFECTIVE_BUFFER_SIZE in *; lia).
    destruct (negb _).
    + destruct (drain_line fuel fill _ _) as [[k2 w3]|] eqn:D; [|discriminate].
      destruct (drain_line_frame _ _ _ _ D) as [Hw _].
      intros H. apply some_triple_inv in H. destruct H as (<- & <- & <-).
      left. split; [reflexivity|]. split; [exact Hfull|].
      rewrite Hw. reflexivity.
    + intros H. apply some_triple_inv in H. destruct H as (<- & <- & <-).
      left. auto.
  - destruct (_ =? 0).
    + intros [= <- <- <-]. right. auto.
    + destruct (Ascii.eqb _ LF); intros [= <- <- <-]; right; auto.
Qed.

Lemma store_length :
  forall (A : Type) (i : nat) (x : A) (l : list A),
    List.length (store i x l) = List.length l.
Proof.
  intros A i x l. revert i. induction l as [|y l IH]; intros i;
    [destruct i; reflexivity|].
  destruct i; cbn [store List.length]; [reflexivity|]. now rewrite IH.
Qed.

Lemma overwrite_length :
  forall (bs l : list ascii),
    List.length bs <= List.length l ->
    List.length (overwrite bs l) = List.length l.
Proof.
  intros bs l H. unfold overwrite. rewrite length_app, length_skipn. lia.
Qed.

Lemma input_read_frame :
  forall fuel fill r k w rc k' w',
    input_read fuel fill r k w = Some (rc, k', w') ->
    interrupt w' = interrupt w
    /\ fg_pid w' = fg_pid w
    /\ bg_head w' = bg_head w
    /\ new_command w' = new_command w
    /\ List.length (buffer w') = BUFFER_SIZE
    /\ zombies k' = zombies k.
Proof.
  intros fuel fill [|n] k w rc k' w'.
  - intros H. cbn [input_read] in H. some_triple H.
    cbn [interrupt fg_pid bg_head new_command buffer set_buffer emit].
    rewrite repeat_length. auto 7.
  - rewrite input_read_bytes. cbv zeta.
    pose proof (delivered_length n k) as Hmax.
    assert (Hbuf : List.length (overwrite (delivered n k) (repeat NUL BUFFER_SIZE))
                   = BUFFER_SIZE).
    { rewrite overwrite_length; rewrite repeat_length; [reflexivity|exact Hmax]. }
    destruct (_ <? _).
    + destruct (negb _).
      * destruct (drain_line fuel fill _ _) as [[k2 w3]|] eqn:D; [|discriminate].
        destruct (drain_line_frame _ _ _ _ D) as [Hw Hz].
        intros H. some_triple H. rewrite Hw.
        cbn [interrupt fg_pid bg_head new_command buffer zombies set_stdin_buf] in *.
        auto 7.
      * intros H. some_triple H.
        cbn [interrupt fg_pid bg_head new_command buffer zombies]. auto 7.
    + destruct (_ =? 0).
      * intros H. some_triple H.
        cbn [interrupt fg_pid bg_head new_command buffer zombies].
        unfold strcpy. rewrite overwrite_length; [auto 7|].
        rewrite Hbuf. unfold BUFFER_SIZE, CMD_EXIT, line.
        cbn [list_ascii_of_string List.length app]. lia.
      * destruct (Ascii.eqb _ LF); intros H; some_triple H;
          cbn [interrupt fg_pid bg_head new_command buffer zombies];
          rewrite store_length; auto 7.
Qed.


Lemma firstn_through :
  forall (a b : list ascii) (x : ascii),
    firstn (S (List.length a)) (a ++ x :: b) = a ++ [x].
Proof.
  induction a as [|c a IH]; intros b x; [reflexivity|].
  cbn [List.length app firstn]. f_equal. apply IH.
Qed.

Lemma skipn_through :
  forall (a b : list ascii) (x : ascii),
    skipn (S (List.length a)) (a ++ x :: b) = b.
Proof.
  induction a as [|c a IH]; intros b x; [reflexivity|].
  cbn [List.length app skipn]. apply IH.
Qed.

Lemma store_at_end :
  forall (a t : list ascii) (x y : ascii),
    store (List.length a) x (a ++ y :: t) = a ++ x :: t.
Proof.
  induction a as [|c a IH]; intros t x y; [reflexivity|].
  cbn [List.length app store]. f_equal. apply IH.
Qed.

Lemma skipn_repeat_NUL :
  forall n m : nat, skipn n (repeat NUL m) = repeat NUL (m - n).
Proof.
  induction n as [|n IH]; intros m; [now rewrite Nat.sub_0_r|].
  destruct m as [|m]; [reflexivity|]. cbn [repeat skipn Nat.sub]. apply IH.
Qed.

(** A line of at most 511 characters followed by its newline, handed
    over whole by one [read], is accepted: the buffer holds the
    characters followed by NULs, and the input continues after the
    newline. *)
Lemma input_read_line_fits :
  forall (fuel : nat) (fill : list ascii -> nat) (cmd rest : list ascii)
         (zs : list positive) (w : shell),
    List.length cmd < EFFECTIVE_BUFFER_SIZE ->
    input_read fuel fill (ReadBytes (S (List.length cmd)))
               (mk_kernel (cmd ++ LF :: rest) zs) w
    = Some (0%Z, mk_kernel rest zs,
            set_buffer (cmd ++ repeat NUL (BUFFER_SIZE - List.length cmd)) w).
Proof.
  intros fuel fill cmd rest zs w Hlen.
  assert (Hmin : Nat.min (S (List.length cmd)) BUFFER_SIZE = S (List.length cmd))
    by (unfold BUFFER_SIZE, EFFECTIVE_BUFFER_SIZE in *; lia).
  assert (Hbs : delivered (S (List.length cmd)) (mk_kernel (cmd ++ LF :: rest) zs)
                = cmd ++ [LF]).
  { unfold delivered, read_stdin. cbn [fst stdin]. rewrite Hmin. apply firstn_through. }
  assert (Hun : unread (S (List.length cmd)) (mk_kernel (cmd ++ LF :: rest) zs) = rest).
  { unfold unread, read_stdin. cbn [snd stdin]. rewrite Hmin, firstn_through.
    rewrite length_app. cbn [List.length]. rewrite Nat.add_1_r. apply skipn_through. }
  rewrite input_read_bytes. cbv zeta. rewrite Hbs, Hun.
  rewrite length_app. cbn [List.length zombies]. rewrite Nat.add_1_r.
  destruct (Nat.ltb_spec EFFECTIVE_BUFFER_SIZE (S (List.length cmd))) as [C|_];
    [lia|].
  cbn [Nat.eqb]. rewrite Nat.sub_succ, Nat.sub_0_r.
  unfold overwrite. rewrite length_app. cbn [List.length]. rewrite Nat.add_1_r.
  rewrite <- app_assoc. cbn [app].
  rewrite app_nth2 by lia. rewrite Nat.sub_diag. cbn [nth].
  rewrite Ascii.eqb_refl. rewrite store_at_end, skipn_repeat_NUL.
  unfold set_buffer. do 3 f_equal.
  replace (BUFFER_SIZE - List.length cmd) with (S (BUFFER_SIZE - S (List.length cmd)))
    by (unfold BUFFER_SIZE, EFFECTIVE_BUFFER_SIZE in *; lia).
  reflexivity.
Qed.


Lemma chomp_snoc :
  forall (a : list ascii) (x : ascii),
    chomp (a ++ [x]) = if Ascii.eqb x LF then a else a ++ [x].
Proof.
  intros a x. unfold chomp. rewrite last_last, removelast_last. reflexivity.
Qed.

(** What an accepted read leaves behind. *)
Lemma input_read_accepted :
  forall (fuel : nat) (fill : list ascii -> nat) (n : nat) (k : kernel) (w : shell)
         (k' : kernel) (w' : shell),
    input_read fuel fill (ReadBytes n) k w = Some (0%Z, k', w') ->
    stdin k' = unread n k
    /\ (delivered n k = [] ->
        buffer w' = padded (line CMD_EXIT) /\ trace w' = trace w ++ [echo_exit])
    /\ (delivered n k <> [] ->
        buffer w' = padded (chomp (delivered n k))
        /\ trace w'
           = trace w ++ (if Ascii.eqb (last (delivered n k) NUL) LF
                         then [] else [Stdout (String LF "")])).
Proof.
  intros fuel fill n k w k' w'. rewrite input_read_bytes. cbv zeta.
  pose proof (delivered_length n k) as Hmax.
  remember (delivered n k) as bs eqn:Hbs. clear Hbs.
  destruct (Nat.ltb_spec EFFECTIVE_BUFFER_SIZE (List.length bs)) as [Hlong|Hshort].
  - destruct (negb _); [destruct (drain_line fuel fill _ _) as [[k2 w3]|]|]; discriminate.
  - destruct bs as [|b0 bs0] using rev_ind.
    + cbn [List.length Nat.eqb]. intros H. some_triple H.
      cbn [stdin buffer trace]. split; [reflexivity|].
      split; [intros _; split; reflexivity|intros C; now elim C].
    + clear IHbs0. rename bs0 into a. rename b0 into x.
      rewrite length_app in *. cbn [List.length] in *.
      replace (List.length a + 1) with (S (List.length a)) in * by lia.
      cbn [Nat.eqb]. rewrite Nat.sub_succ, Nat.sub_0_r.
      assert (Hov : overwrite (a ++ [x]) (repeat NUL BUFFER_SIZE)
                    = a ++ x :: repeat NUL (BUFFER_SIZE - S (List.length a))).
      { unfold overwrite. rewrite length_app. cbn [List.length].
        rewrite Nat.add_1_r, skipn_repeat_NUL, <- app_assoc. reflexivity. }
      rewrite Hov, app_nth2, Nat.sub_diag by lia. cbn [nth].
      rewrite last_last, chomp_snoc.
      destruct (Ascii.eqb x LF) eqn:Hx; intros H; some_triple H;
        cbn [stdin buffer trace]; (split; [reflexivity|]);
        (split; [intros C; destruct a; discriminate C|intros _]).
      * rewrite store_at_end, app_nil_r. split; [|reflexivity].
        unfold padded.
        replace (BUFFER_SIZE - List.length a)
          with (S (BUFFER_SIZE - S (List.length a)))
          by (unfold BUFFER_SIZE, EFFECTIVE_BUFFER_SIZE in *; lia).
        reflexivity.
      * split; [|reflexivity]. unfold padded.
        rewrite length_app. cbn [List.length]. rewrite Nat.add_1_r.
        replace (BUFFER_SIZE - S (List.length a))
          with (S (BUFFER_SIZE - S (S (List.length a))))
          by (unfold BUFFER_SIZE, EFFECTIVE_BUFFER_SIZE in *; lia).
        cbn [repeat].
        replace (a ++ x :: NUL :: repeat NUL (BUFFER_SIZE - S (S (List.length a))))
          with ((a ++ [x]) ++ NUL :: repeat NUL (BUFFER_SIZE - S (S (List.length a))))
          by (rewrite <- app_assoc; reflexivity).
        replace (S (List.length a)) with (List.length (a ++ [x]))
          by (rewrite length_app; cbn [List.length]; lia).
        rewrite store_at_end. reflexivity.
Qed.








(* ------------------------------------------------------------------ *)
(** ** End of input *)

Lemma input_read_typed_exit :
  forall fuel fill inp zs w,
    input_read fuel fill (ReadBytes 5) (mk_kernel (line CMD_EXIT ++ LF :: inp) zs) w
    = Some (0%Z, mk_kernel inp zs, set_buffer (buffer_of CMD_EXIT) w).
Proof.
  intros fuel fill inp zs w.
  apply (@input_read_line_fits fuel fill (line CMD_EXIT) inp zs w).
  unfold EFFECTIVE_BUFFER_SIZE. cbn. lia.
Qed.

Lemma command_execute_exit :
  forall (env : exec_env) (v : shell),
    alloc env ARGS_SIZE = true ->
    buffer v = buffer_of CMD_EXIT ->
    command_execute env v = Returned 0 (command_exit_handler v).
Proof.
  intros env [i f b buf nc tr] Hok Hbuf. cbn [buffer] in Hbuf. subst buf.
  unfold command_execute, command_parse. rewrite Hok. cbn [negb].
  vm_compute. reflexivity.
Qed.

Lemma filter_filter_running :
  forall l : list process_t, filter running (filter running l) = filter running l.
Proof.
  induction l as [|p l IH]; [reflexivity|]. cbn [filter].
  destruct (running p) eqn:E; [|exact IH].
  cbn [filter]. rewrite E. now rewrite IH.
Qed.

(** C7.  When the [read] delivers no byte, [input_read] returns 0 with
    the buffer holding [exit] and the line [exit] echoed; the shell it
    leaves is the one a typed [exit] line would have left, but for the
    echo.  On such a buffer [command_execute], once the argument array is
    allocated, runs the exit handler and returns 0, so the interrupt flag
    is set and the registry is empty.  The round of the handshake that
    reads the end of input is therefore the last: the shell's loops end
    after it, whatever rounds the environment still had in store. *)
Theorem end_of_input_runs_exit :
  forall (fuel n : nat) (fill : list ascii -> nat) (k : kernel) (w : shell),
    delivered n k = [] ->
    input_read fuel fill (ReadBytes n) k w
    = Some (0%Z, mk_kernel (stdin k) (zombies k),
            emit echo_exit (set_buffer (buffer_of CMD_EXIT) w))
    /\ (forall fuel' fill',
           input_read fuel' fill' (ReadBytes 5)
                      (mk_kernel (line CMD_EXIT ++ LF :: stdin k) (zombies k)) w
           = Some (0%Z, mk_kernel (stdin k) (zombies k),
                   set_buffer (buffer_of CMD_EXIT) w))
    /\ (forall (env : exec_env) (v : shell),
           alloc env ARGS_SIZE = true ->
           buffer v = buffer_of CMD_EXIT ->
           command_execute env v = Returned 0 (command_exit_handler v)
           /\ interrupt (command_exit_handler v) = true
           /\ bg_head (command_exit_handler v) = [])
    /\ (forall (env : exec_env) (rest : list round_env),
           alloc env ARGS_SIZE = true ->
           interrupt w = false ->
           exists final,
             shell_run (mk_round_env fuel fill (ReadBytes n) env :: rest) k w
             = Some (mk_kernel (stdin k) (zombies k), final)
             /\ interrupt final = true
             /\ bg_head final = []
             /\ trace final
                = trace w
                  ++ (map notify (filter terminated (bg_head w)) ++ [Stdout PROMPT])
                  ++ [echo_exit]
                  ++ map (fun p => Kill (pid p) SIGKILL) (filter running (bg_head w))).
Proof.
  intros fuel n fill k w Hbs.
  split; [now apply input_read_eof|].
  split; [intros fuel' fill'; apply input_read_typed_exit|].
  split.
  - intros env v Hok Hbuf. split; [now apply command_execute_exit|]. split; reflexivity.
  - intros env rest Hok Hint.
    cbn [shell_run]. rewrite Hint.
    unfold handshake_round. cbn [drain_fuel stdio_fill read_ans exec].
    rewrite (input_read_eof fuel fill n k (prompt_show w) Hbs).
    cbn [Z.eqb].
    rewrite (@command_execute_exit env
               (set_new_command true
                  (emit echo_exit (set_buffer (buffer_of CMD_EXIT) (prompt_show w))))
               Hok eq_refl).
    eexists. split.
    + destruct rest; reflexivity.
    + cbn [interrupt bg_head trace set_new_command command_exit_handler emit set_buffer
           fg_pid buffer new_command].
      split; [reflexivity|]. split; [reflexivity|].
      rewrite exit_kills_spec.
      unfold prompt_show. rewrite prompt_loop_spec.
      cbn [interrupt bg_head trace fg_pid buffer new_command app].
      rewrite filter_filter_running. rewrite <- !app_assoc. reflexivity.
Qed.

Lemma end_of_input_witness :
  let w := mk_shell false (-1) [mk_process true 12; mk_process false 13]
                    (buffer_of "ls") false [] [] in
  let env := mk_exec_env (fun _ => true) 99 true
                         (mk_child_env true true true true true) [] in
  shell_run [mk_round_env 0 by_line (ReadBytes 513) env] (mk_kernel [] []) w
  = Some (mk_kernel [] [],
          mk_shell true (-1) [] (buffer_of CMD_EXIT) false
                   [notify (mk_process false 13); Stdout PROMPT; echo_exit;
                    Kill 12 SIGKILL] []).
Proof.
  intros w env.
  destruct (@end_of_input_runs_exit 0 513 by_line (mk_kernel [] []) w eq_refl)
    as (_ & _ & _ & H).
  destruct (H env [] eq_refl eq_refl) as (final & Hrun & _).
  rewrite Hrun. vm_compute in Hrun. injection Hrun as <-.
  vm_compute. reflexivity.
Defined.

(* ------------------------------------------------------------------ *)
(** ** The terminator the parser relies on *)

Lemma store_NUL_tail :
  forall (m i : nat) (l : list ascii),
    Forall (fun c => c = NUL) (skipn m l) ->
    Forall (fun c => c = NUL) (skipn m (store i NUL l)).
Proof.
  induction m as [|m IH]; intros i l H.
  - cbn [skipn] in *. revert i. induction H as [|c l Hc Hl IHl]; intros i.
    + destruct i; constructor.
    + destruct i; cbn [store]; constructor; auto.
  - destruct l as [|c l]; [destruct i; exact H|].
    destruct i as [|i]; cbn [store skipn] in *; [exact H|]. now apply IH.
Qed.

Lemma skipn_further :
  forall (A : Type) (Q : A -> Prop) (n m : nat) (l : list A),
    n <= m -> Forall Q (skipn n l) -> Forall Q (skipn m l).
Proof.
  intros A Q n m l Hle H.
  replace m with ((m - n) + n) by lia. rewrite <- skipn_skipn.
  now apply Forall_skipn_keep.
Qed.

Lemma overwrite_tail_NUL :
  forall (bs : list ascii) (m : nat),
    List.length bs <= m ->
    Forall (fun c => c = NUL) (skipn m (overwrite bs (repeat NUL BUFFER_SIZE))).
Proof.
  intros bs m Hle. apply (@skipn_further _ _ (List.length bs) m _ Hle).
  unfold overwrite. rewrite skipn_app, skipn_all, Nat.sub_diag. cbn [skipn app].
  apply Forall_skipn_keep. apply Forall_forall. intros c Hc.
  now apply repeat_spec in Hc.
Qed.

(** Whenever [input_read] accepts its input, the byte of the buffer that
    the parser does not scan is NUL: every string that starts in the
    buffer ends in the buffer. *)
Lemma input_read_leaves_terminator :
  forall fuel fill r k w k' w',
    input_read fuel fill r k w = Some (0%Z, k', w') ->
    Forall (fun c => c = NUL) (skipn EFFECTIVE_BUFFER_SIZE (buffer w')).
Proof.
  intros fuel fill [|n] k w k' w'; [discriminate|].
  rewrite input_read_bytes. cbv zeta.
  destruct (Nat.ltb_spec EFFECTIVE_BUFFER_SIZE (List.length (delivered n k)))
    as [Hlong|Hshort].
  - destruct (negb _); [destruct (drain_line fuel fill _ _) as [[k2 w3]|]|];
      discriminate.
  - destruct (_ =? 0) eqn:Hz.
    + intros [= _ <-]. cbn [buffer]. unfold strcpy.
      apply Nat.eqb_eq in Hz. apply length_zero_iff_nil in Hz. rewrite Hz.
      vm_compute. repeat constructor.
    + destruct (Ascii.eqb _ LF); intros [= _ <-]; cbn [buffer];
        apply store_NUL_tail; now apply overwrite_tail_NUL.
Qed.

(* ================================================================== *)
(** * Further properties *)

(* ------------------------------------------------------------------ *)
(** ** The parser, whatever the allocator answers *)

Lemma parse_begin_args :
  forall i c st,
    List.length (p_args st) <= List.length (p_args (parse_begin i c st)).
Proof.
  intros i c st. unfold parse_begin.
  destruct (ignore st); cbn [p_args]; [lia|].
  destruct (Ascii.eqb (token st) REDIR_IN); cbn [p_args]; [lia|].
  destruct (Ascii.eqb (token st) REDIR_OUT); cbn [p_args]; [lia|].
  rewrite length_app. lia.
Qed.

Lemma tokens_with_prefix :
  forall r pre suf,
    exists extra, tokens_with r (pre ++ suf) = tokens_with r pre ++ extra.
Proof.
  intros r pre suf. induction suf as [|c suf IH] using rev_ind.
  - exists []. now rewrite !app_nil_r.
  - destruct IH as [extra IH]. rewrite app_assoc, tokens_with_snoc, IH.
    eexists. rewrite <- app_assoc. reflexivity.
Qed.

Lemma tokens_with_prefix_length :
  forall r pre suf,
    List.length (tokens_with r pre) <= List.length (tokens_with r (pre ++ suf)).
Proof.
  intros r pre suf. destruct (tokens_with_prefix r pre suf) as [extra ->].
  rewrite length_app. lia.
Qed.

Lemma ARGS_SIZE_pow_pos : forall k, 0 < ARGS_SIZE * 2 ^ k.
Proof.
  intros k. unfold ARGS_SIZE.
  pose proof (Nat.pow_nonzero 2 k). lia.
Qed.

(** The loop under an arbitrary allocator: either it runs to the end of
    the line and keeps the invariant, every doubling it asked for having
    been granted, or it stops at a doubling that was refused while the
    array was full. *)
Lemma parse_loop_any_alloc :
  forall (alloc : nat -> bool) (cs pre : list ascii) (st : parser),
    parsed pre st -> roomy st -> granted alloc st -> snug st ->
    match parse_loop alloc (List.length pre) cs st with
    | (st', true, rest) =>
        parsed (pre ++ cs) st' /\ roomy st' /\ granted alloc st' /\ snug st'
        /\ rest = []
    | (st', false, rest) =>
        exists k, 1 <= k
                  /\ ARGS_SIZE * 2 ^ (k - 1)
                     <= List.length (tokens_with Argument (pre ++ cs))
                  /\ alloc (ARGS_SIZE * 2 ^ k) = false
    end.
Proof.
  intros alloc cs. induction cs as [|c cs IH]; intros pre st Hp Hr Hg Hs.
  - cbn [parse_loop]. rewrite app_nil_r. auto.
  - replace (pre ++ c :: cs) with ((pre ++ [c]) ++ cs)
      by (rewrite <- app_assoc; reflexivity).
    assert (HS : S (List.length pre) = List.length (pre ++ [c]))
      by (rewrite length_app; cbn [List.length]; lia).
    cbn [parse_loop]. rewrite HS.
    destruct (isspace c || is_nul c) eqn:Hc.
    + apply IH; [now apply parsed_space|exact Hr|exact Hg|exact Hs].
    + destruct (is_marker c) eqn:Hm.
      * apply IH; [now apply parsed_marker|exact Hr|exact Hg|exact Hs].
      * pose proof (ordinary_intro c Hc Hm) as Hn.
        pose proof (@parsed_begin pre st c Hp Hn) as Hp1.
        destruct (parse_begin_length (List.length pre) c st) as [Hl Hsz].
        pose proof (parse_begin_args (List.length pre) c st) as Hge.
        set (st1 := parse_begin (List.length pre) c st) in *.
        unfold roomy, snug in *.
        destruct (args_size st1 <=? List.length (p_args st1)) eqn:Hfull.
        -- apply Nat.leb_le in Hfull.
           destruct Hg as (k & Hk & Hall).
           assert (Hnew : args_size (parse_grow st1) = ARGS_SIZE * 2 ^ (S k)).
           { cbn [parse_grow args_size]. rewrite Hsz, Hk, Nat.pow_succ_r'. lia. }
           destruct (alloc (args_size (parse_grow st1))) eqn:Ha.
           ++ apply IH; [exact Hp1| | |].
              ** unfold roomy. cbn [parse_grow args_size p_args]. lia.
              ** exists (S k). split; [exact Hnew|].
                 intros j Hj. destruct (Nat.eq_dec j (S k)) as [->|Hne].
                 --- now rewrite <- Hnew.
                 --- apply Hall. lia.
              ** right. cbn [parse_grow args_size p_args]. lia.
           ++ exists (S k). split; [lia|]. split; [|now rewrite <- Hnew].
              replace (S k - 1) with k by lia. rewrite <- Hk, <- Hsz.
              destruct Hp1 as (Ha1 & _).
              apply Nat.le_trans with (List.length (p_args st1)); [lia|].
              rewrite Ha1. apply tokens_with_prefix_length.
        -- apply Nat.leb_gt in Hfull.
           apply IH; [exact Hp1|exact Hfull| |].
           ++ destruct Hg as (k & Hk & Hall). exists k. now rewrite Hsz.
           ++ rewrite Hsz. destruct Hs as [Hs|Hs]; [now left|right; lia].
Qed.

Lemma parser_init_granted :
  forall alloc, granted alloc parser_init /\ snug parser_init.
Proof.
  intros alloc. split.
  - exists 0. split; [reflexivity|]. intros j Hj. lia.
  - now left.
Qed.

Lemma pow2_le_lt :
  forall a b n, ARGS_SIZE * 2 ^ a <= n -> n < ARGS_SIZE * 2 ^ b -> a < b.
Proof.
  intros a b n H1 H2. unfold ARGS_SIZE in *.
  apply (Nat.pow_lt_mono_r_iff 2); lia.
Qed.

(** The two ways [command_parse] can end. *)
Lemma command_parse_cases :
  forall (alloc : nat -> bool) (w : shell),
    let n := List.length (tokens_with Argument
                            (firstn EFFECTIVE_BUFFER_SIZE (buffer w))) in
    (fst (fst (command_parse alloc w)) = 0%Z
     /\ allocations_ok alloc n
     /\ args (snd (fst (command_parse alloc w))) <> None
     /\ trace (snd (command_parse alloc w)) = trace w)
    \/ (fst (fst (command_parse alloc w)) = (-1)%Z
        /\ ~ allocations_ok alloc n
        /\ args (snd (fst (command_parse alloc w))) = None
        /\ (trace (snd (command_parse alloc w)) = trace w ++ [Perror "malloc"]
            \/ trace (snd (command_parse alloc w)) = trace w ++ [Perror "realloc"])).
Proof.
  intros alloc w n. unfold command_parse.
  destruct (alloc ARGS_SIZE) eqn:H0; cbn [negb].
  - destruct parsed_init as [Hp0 Hr0].
    destruct (parser_init_granted alloc) as [Hg0 Hs0].
    pose proof (@parse_loop_any_alloc alloc
                  (firstn EFFECTIVE_BUFFER_SIZE (buffer w)) [] parser_init
                  Hp0 Hr0 Hg0 Hs0) as H.
    cbn [List.length app] in H.
    destruct (parse_loop alloc 0 (firstn EFFECTIVE_BUFFER_SIZE (buffer w)) parser_init)
      as [[st ok] rest].
    destruct ok.
    + left. cbn [fst snd args trace set_buffer].
      destruct H as (Hp & Hr & (k & Hk & Hall) & _ & _).
      split; [reflexivity|]. split; [|split; [discriminate|reflexivity]].
      split; [exact H0|]. intros j Hj Hle. apply Hall. split; [exact Hj|].
      destruct Hp as (Ha & _). unfold roomy in Hr. rewrite Ha, Hk in Hr.
      fold n in Hr.
      pose proof (@pow2_le_lt (j - 1) k n Hle Hr). lia.
    + right. cbn [fst snd args trace set_buffer emit].
      destruct H as (k & Hk & Hle & Hno).
      split; [reflexivity|]. split; [|split; [reflexivity|now right]].
      intros [_ Hall]. rewrite (Hall k Hk Hle) in Hno. discriminate Hno.
  - right. cbn [fst snd args trace emit].
    split; [reflexivity|]. split; [|split; [reflexivity|now left]].
    intros [Hall _]. rewrite Hall in H0. discriminate H0.
Qed.

(** X1.  [command_parse] fails exactly when an allocation it needs is
    refused: the initial array of four slots, or one of the doublings
    that the number of argument tokens on the line makes necessary.  When
    it succeeds it returns 0, the argument array is not NULL and nothing
    is reported; when it fails it returns [-1], the argument array is
    NULL, and the one thing reported is [perror ("malloc")] or
    [perror ("realloc")]. *)
Theorem parse_fails_only_on_refused_allocation :
  forall (alloc : nat -> bool) (w : shell),
    let n := List.length (tokens_with Argument
                            (firstn EFFECTIVE_BUFFER_SIZE (buffer w))) in
    (fst (fst (command_parse alloc w)) = 0%Z
     /\ allocations_ok alloc n
     /\ args (snd (fst (command_parse alloc w))) <> None
     /\ trace (snd (command_parse alloc w)) = trace w)
    \/ (fst (fst (command_parse alloc w)) = (-1)%Z
        /\ ~ allocations_ok alloc n
        /\ args (snd (fst (command_parse alloc w))) = None
        /\ (trace (snd (command_parse alloc w)) = trace w ++ [Perror "malloc"]
            \/ trace (snd (command_parse alloc w)) = trace w ++ [Perror "realloc"])).
Proof. exact command_parse_cases. Qed.

(** X2.  When parsing succeeds, the argument array holds the offsets of
    the argument tokens in order, followed by NULLs up to its capacity.
    The capacity is the initial four slots doubled some number of times,
    it always leaves room for at least one NULL, and it is either still
    four or at most twice the number of arguments. *)
Theorem parse_array_capacity :
  forall (alloc : nat -> bool) (w : shell) (cmd : command_t) (w' : shell),
    command_parse alloc w = (0%Z, cmd, w') ->
    let offs := tokens_with Argument (firstn EFFECTIVE_BUFFER_SIZE (buffer w)) in
    exists cap k,
      args cmd = Some (map Some offs ++ repeat None (cap - List.length offs))
      /\ cap = ARGS_SIZE * 2 ^ k
      /\ List.length offs < cap
      /\ (cap = ARGS_SIZE \/ cap <= 2 * List.length offs).
Proof.
  intros alloc w cmd w'. unfold command_parse.
  destruct (alloc ARGS_SIZE) eqn:H0; cbn [negb]; [|discriminate].
  destruct parsed_init as [Hp0 Hr0].
  destruct (parser_init_granted alloc) as [Hg0 Hs0].
  pose proof (@parse_loop_any_alloc alloc
                (firstn EFFECTIVE_BUFFER_SIZE (buffer w)) [] parser_init
                Hp0 Hr0 Hg0 Hs0) as H.
  cbn [List.length app] in H.
  destruct (parse_loop alloc 0 (firstn EFFECTIVE_BUFFER_SIZE (buffer w)) parser_init)
    as [[st ok] rest].
  destruct ok; [|discriminate].
  intros Heq. injection Heq as Hcmd _. subst cmd.
  destruct H as ((Ha & _) & Hr & (k & Hk & _) & Hs & _).
  unfold roomy, snug in *. rewrite Ha in *.
  exists (args_size st), k. cbn [args]. auto.
Qed.

Lemma parse_array_capacity_witness :
  let w := mk_shell false (-1) [] (buffer_of "a b c d e") false [] [] in
  exists cmd w' cap k,
    command_parse (fun _ => true) w = (0%Z, cmd, w')
    /\ args cmd = Some (map Some [0; 2; 4; 6; 8] ++ repeat None (cap - 5))
    /\ cap = ARGS_SIZE * 2 ^ k /\ 5 < cap /\ (cap = ARGS_SIZE \/ cap <= 2 * 5).
Proof.
  intros w.
  assert (Hrun : exists cmd w', command_parse (fun _ => true) w = (0%Z, cmd, w')).
  { eexists. eexists. vm_compute. reflexivity. }
  destruct Hrun as (cmd & w' & Hrun).
  pose proof (@parse_array_capacity (fun _ => true) w cmd w' Hrun) as H.
  cbv zeta in H.
  assert (Ht : tokens_with Argument (firstn EFFECTIVE_BUFFER_SIZE (buffer w))
               = [0; 2; 4; 6; 8]) by (vm_compute; reflexivity).
  rewrite Ht in H. destruct H as (cap & k & H).
  exists cmd, w', cap, k. split; [exact Hrun|exact H].
Defined.

(** [command_parse] in closed form, as soon as the allocations that the
    line needs are granted. *)
Lemma command_parse_closed_form :
  forall (alloc : nat -> bool) (w : shell),
    let l := firstn EFFECTIVE_BUFFER_SIZE (buffer w) in
    allocations_ok alloc (List.length (tokens_with Argument l)) ->
    exists cap,
      List.length (tokens_with Argument l) < cap
      /\ command_parse alloc w
         = (0%Z,
            mk_command (existsb (Ascii.eqb RUN_IN_BG) l)
                       (Some (map Some (tokens_with Argument l)
                              ++ repeat None
                                   (cap - List.length (tokens_with Argument l))))
                       (last_opt (tokens_with OutputTarget l))
                       (last_opt (tokens_with InputTarget l)),
            set_buffer (map blank l ++ skipn EFFECTIVE_BUFFER_SIZE (buffer w)) w).
Proof.
  intros alloc w l Hok. unfold command_parse.
  destruct Hok as [H0 Hall]. rewrite H0. cbn [negb].
  destruct parsed_init as [Hp0 Hr0].
  destruct (parser_init_granted alloc) as [Hg0 Hs0].
  pose proof (@parse_loop_any_alloc alloc l [] parser_init Hp0 Hr0 Hg0 Hs0) as H.
  cbn [List.length app] in H. fold l.
  destruct (parse_loop alloc 0 l parser_init) as [[st ok] rest].
  destruct ok.
  - destruct H as ((Ha & Hi & Ho & Ht & Hg & Hb & Hs) & Hr & _ & _ & ->).
    unfold roomy in Hr. exists (args_size st).
    rewrite <- Ha, <- Hi, <- Ho, <- Hb, <- Hs. split; [exact Hr|reflexivity].
  - destruct H as (k & Hk & Hle & Hno).
    rewrite (Hall k Hk Hle) in Hno. discriminate Hno.
Qed.

Lemma ordinary_not_nul : forall c, ordinary c = true -> is_nul c = false.
Proof.
  intros c H. unfold ordinary in H. apply andb_prop in H. destruct H as [H _].
  apply negb_true_iff, orb_false_iff in H. tauto.
Qed.

(** In a scanned buffer the string that starts at a character is the
    run of ordinary characters that starts there. *)
Lemma cstring_blank :
  forall (xs tail : list ascii),
    Forall (fun c => c = NUL) tail ->
    cstring (map blank xs ++ tail) = string_of_list_ascii (take_while ordinary xs).
Proof.
  intros xs tail Htail. induction xs as [|c xs IH].
  - cbn [map app take_while string_of_list_ascii].
    destruct Htail as [|t tail Ht _]; [reflexivity|]. subst t. reflexivity.
  - cbn [map app take_while cstring].
    destruct (ordinary c) eqn:Hc.
    + assert (Hb : blank c = c) by (unfold blank; now rewrite Hc).
      rewrite Hb, (ordinary_not_nul c Hc). cbn [string_of_list_ascii].
      now rewrite IH.
    + assert (Hb : blank c = NUL) by (unfold blank; now rewrite Hc).
      rewrite Hb. reflexivity.
Qed.

Lemma cstring_at_blank :
  forall (l tail : list ascii) (off : nat),
    Forall (fun c => c = NUL) tail ->
    off <= List.length l ->
    cstring_at (map blank l ++ tail) off = word_at l off.
Proof.
  intros l tail off Htail Hoff. unfold cstring_at, word_at.
  rewrite skipn_app, length_map.
  replace (off - List.length l) with 0 by lia. cbn [skipn].
  rewrite skipn_map. now apply cstring_blank.
Qed.

Lemma tokens_with_bound :
  forall r l off, In off (tokens_with r l) -> off < List.length l.
Proof.
  intros r l off H. unfold tokens_with in H. apply filter_In in H.
  destruct H as [H _]. apply in_seq in H. lia.
Qed.

Lemma argv_strings_slots :
  forall (buf : list ascii) (offs : list nat) (n : nat),
    argv_strings buf (map Some offs ++ repeat None (S n))
    = map (cstring_at buf) offs.
Proof.
  intros buf offs n. induction offs as [|off offs IH]; [reflexivity|].
  cbn [map app argv_strings]. now rewrite IH.
Qed.

(** X3.  When the allocations the line needs are granted and the buffer
    ends in NUL, parsing succeeds and the command reads back as the words
    of the line: the argument vector is the list of the words (maximal
    runs of ordinary characters) that start at the argument tokens, in
    order; each redirect target is the word that starts at the last token
    routed to it; and the background flag is set exactly when the
    background marker occurs somewhere in the scanned line. *)
Theorem parse_gives_the_words_of_the_line :
  forall (alloc : nat -> bool) (w : shell),
    let l := firstn EFFECTIVE_BUFFER_SIZE (buffer w) in
    allocations_ok alloc (List.length (tokens_with Argument l)) ->
    Forall (fun c => c = NUL) (skipn EFFECTIVE_BUFFER_SIZE (buffer w)) ->
    exists cmd w',
      command_parse alloc w = (0%Z, cmd, w')
      /\ command_strings cmd (buffer w')
         = (map (word_at l) (tokens_with Argument l),
            option_map (word_at l) (last_opt (tokens_with OutputTarget l)),
            option_map (word_at l) (last_opt (tokens_with InputTarget l)),
            existsb (Ascii.eqb RUN_IN_BG) l)
      /\ (run_in_bg cmd = true <-> In RUN_IN_BG l).
Proof.
  intros alloc w l Hok Htail.
  destruct (@command_parse_closed_form alloc w Hok) as (cap & Hcap & Hrun).
  fold l in Hcap, Hrun.
  eexists. eexists. split; [exact Hrun|].
  assert (Hword : forall r off, In off (tokens_with r l) ->
                    cstring_at (map blank l
                                ++ skipn EFFECTIVE_BUFFER_SIZE (buffer w)) off
                    = word_at l off).
  { intros r off Hin. apply cstring_at_blank; [exact Htail|].
    apply tokens_with_bound in Hin. lia. }
  split.
  - unfold command_strings. cbn [args out in_ run_in_bg buffer set_buffer].
    replace (cap - List.length (tokens_with Argument l))
      with (S (cap - List.length (tokens_with Argument l) - 1)) by lia.
    rewrite argv_strings_slots.
    set (buf := map blank l ++ skipn EFFECTIVE_BUFFER_SIZE (buffer w)) in *.
    assert (H1 : map (cstring_at buf) (tokens_with Argument l)
                 = map (word_at l) (tokens_with Argument l)).
    { apply map_ext_in. intros off Hin. now apply (Hword Argument). }
    assert (H2 : option_map (cstring_at buf) (last_opt (tokens_with OutputTarget l))
                 = option_map (word_at l) (last_opt (tokens_with OutputTarget l))).
    { destruct (last_opt (tokens_with OutputTarget l)) as [off|] eqn:E;
        [|reflexivity].
      cbn [option_map]. f_equal. apply (Hword OutputTarget).
      now apply last_opt_In. }
    assert (H3 : option_map (cstring_at buf) (last_opt (tokens_with InputTarget l))
                 = option_map (word_at l) (last_opt (tokens_with InputTarget l))).
    { destruct (last_opt (tokens_with InputTarget l)) as [off|] eqn:E;
        [|reflexivity].
      cbn [option_map]. f_equal. apply (Hword InputTarget).
      now apply last_opt_In. }
    rewrite H1, H2, H3. reflexivity.
  - cbn [run_in_bg]. rewrite existsb_exists. split.
    + intros (c & Hin & Hc). apply Ascii.eqb_eq in Hc. now subst c.
    + intros Hin. exists RUN_IN_BG. split; [exact Hin|apply Ascii.eqb_refl].
Qed.

Lemma parse_gives_the_words_witness :
  exists cmd w',
    command_parse (fun _ => true)
                  (mk_shell false (-1) [] (buffer_of "wc -l<in.txt &") false [] [])
    = (0%Z, cmd, w')
    /\ command_strings cmd (buffer w')
       = (["wc"; "-l"]%string, None, Some "in.txt"%string, true).
Proof.
  destruct (@parse_gives_the_words_of_the_line (fun _ => true)
              (mk_shell false (-1) [] (buffer_of "wc -l<in.txt &") false [] []))
    as (cmd & w' & Hrun & Hstr & _).
  - split; [reflexivity|]. intros k _ _. reflexivity.
  - vm_compute. repeat constructor.
  - exists cmd, w'. split; [exact Hrun|]. rewrite Hstr. vm_compute. reflexivity.
Defined.

(* ------------------------------------------------------------------ *)
(** ** Launching *)

Lemma wait_loop_result :
  forall (answers : list wait_result) (w : shell) (b : bool) (w' : shell),
    wait_loop answers w = Some (b, w') ->
    (b = true /\ w' = w)
    \/ (b = false /\ w' = set_fg_pid (-1) (emit (Perror "waitpid") w)).
Proof.
  induction answers as [|r answers IH]; intros w b w' H; cbn [wait_loop] in H;
    [discriminate H|].
  destruct r as [e|p st].
  - destruct (negb (errno_eqb e ECHILD)); injection H as <- <-; auto.
  - destruct (negb (WIFEXITED st || WIFSIGNALED st)); [now apply IH|].
    injection H as <- <-. auto.
Qed.

Lemma command_child_leaves :
  forall (env : child_env) (command : command_t) (w : shell),
    match command_child env command w with
    | Returned _ _ | Blocked _ => False
    | Exited st _ => st = EXIT_FAILURE
    | Replaced _ _ _ _ => True
    end.
Proof.
  intros env command w. unfold command_child, command_redirect_out, command_redirect_in.
  destruct (out command); destruct (in_ command);
    destruct (open_out_ok env), (dup2_out_ok env), (open_in_ok env),
             (dup2_in_ok env), (execvp_ok env); cbn; auto.
Qed.

(** X4.  A foreground launch is silent and leaves no job behind: when
    [command_fork] returns for a foreground command whose [fork]
    succeeded, the registry, the buffer and the flags are as before, and
    all it has added to the trace is the [fork] itself, followed by
    [perror ("waitpid")] when it returns [-1].  Nothing is printed on
    standard output, whatever [waitpid] answered. *)
Theorem foreground_launch_is_silent :
  forall (c_pid : Z) (node_ok : bool) (env : child_env)
         (answers : list wait_result) (command : command_t) (w : shell)
         (rc : Z) (w' : shell),
    run_in_bg command = false ->
    (c_pid > 0)%Z ->
    command_fork c_pid node_ok env answers command w = Returned rc w' ->
    bg_head w' = bg_head w
    /\ buffer w' = buffer w
    /\ interrupt w' = interrupt w
    /\ new_command w' = new_command w
    /\ ((rc = 0%Z /\ trace w' = trace w ++ [Fork c_pid])
        \/ (rc = (-1)%Z /\ trace w' = trace w ++ [Fork c_pid; Perror "waitpid"])).
Proof.
  intros c_pid node_ok env answers command w rc w' Hfg Hpos.
  assert (Hlt : (c_pid <? 0)%Z = false) by (apply Z.ltb_ge; lia).
  assert (Hgt : (c_pid >? 0)%Z = true) by (apply Z.gtb_lt; lia).
  unfold command_fork. rewrite Hlt, Hgt, Hfg. cbn [negb].
  destruct (wait_loop answers (set_fg_pid c_pid (emit (Fork c_pid) w)))
    as [[b w1]|] eqn:E; [|discriminate].
  destruct (wait_loop_result _ _ E) as [[-> ->]|[-> ->]]; intros [= <- <-];
    cbn [bg_head buffer interrupt new_command trace set_fg_pid emit].
  - repeat split; try reflexivity. now left.
  - repeat split; try reflexivity. right. split; [reflexivity|].
    now rewrite <- app_assoc.
Qed.

Lemma foreground_launch_is_silent_witness :
  let command := mk_command false (Some [Some 0; None; None; None]) None None in
  let w := mk_shell false (-1) [mk_process true 5] (buffer_of "ls") false [] [] in
  let w' := mk_shell false (-1) [mk_process true 5] (buffer_of "ls") false
                     [Fork 42; Perror "waitpid"] [] in
  command_fork 42 true (mk_child_env true true true true true)
               [WaitOk 42 StContinued; WaitFail EINTR] command w
  = Returned (-1) w'
  /\ bg_head w' = bg_head w.
Proof.
  intros command w w'. split; [reflexivity|].
  apply (@foreground_launch_is_silent 42 true (mk_child_env true true true true true)
           [WaitOk 42 StContinued; WaitFail EINTR] command w (-1)%Z w');
    reflexivity.
Defined.

(** X5.  The child never comes back into the shell's code: in the
    process where [fork] returned 0, [command_fork] neither returns nor
    blocks; it ends either in [exit (EXIT_FAILURE)] or in the program
    that [execvp] started.  The program is started exactly when every
    redirection that was asked for could be opened and installed and
    [execvp] itself succeeded; it then runs with the argument vector of
    the command, and with SIGINT blocked exactly when the command is a
    background one. *)
Theorem child_never_returns_to_the_shell :
  forall (node_ok : bool) (env : child_env) (answers : list wait_result)
         (command : command_t) (w : shell),
    (forall rc w', command_fork 0 node_ok env answers command w <> Returned rc w')
    /\ (forall w', command_fork 0 node_ok env answers command w <> Blocked w')
    /\ (forall st w', command_fork 0 node_ok env answers command w = Exited st w' ->
                      st = EXIT_FAILURE)
    /\ ((exists file argv mask w',
            command_fork 0 node_ok env answers command w = Replaced file argv mask w')
        <-> (out command = None \/ (open_out_ok env = true /\ dup2_out_ok env = true))
            /\ (in_ command = None \/ (open_in_ok env = true /\ dup2_in_ok env = true))
            /\ execvp_ok env = true)
    /\ (forall file argv mask w',
           command_fork 0 node_ok env answers command w = Replaced file argv mask w' ->
           mask = (if run_in_bg command then [SIGINT] else [])
           /\ file = hd EmptyString argv
           /\ argv = match args command with
                     | Some slots => argv_strings (buffer w) slots
                     | None => []
                     end).
Proof.
  intros node_ok env answers command w.
  unfold command_fork. cbn [Z.ltb Z.gtb Z.compare].
  pose proof (command_child_leaves env command (emit (Fork 0) w)) as Hleave.
  split; [|split; [|split; [|split]]].
  - intros rc w' E. rewrite E in Hleave. exact Hleave.
  - intros w' E. rewrite E in Hleave. exact Hleave.
  - intros st w' E. rewrite E in Hleave. exact Hleave.
  - clear Hleave.
    unfold command_child, command_redirect_out, command_redirect_in.
    destruct (out command); destruct (in_ command);
      destruct (open_out_ok env), (dup2_out_ok env), (open_in_ok env),
               (dup2_in_ok env), (execvp_ok env); cbn [negb];
      (split;
       [ intros (f & a & m & v & E); try discriminate E;
         repeat split; auto
       | intros (H1 & H2 & H3);
         try discriminate H3;
         try (destruct H1 as [H1|[H1 H1']]; discriminate);
         try (destruct H2 as [H2|[H2 H2']]; discriminate);
         eexists; eexists; eexists; eexists; reflexivity ]).
  - clear Hleave.
    unfold command_child, command_redirect_out, command_redirect_in.
    intros file argv mask w'.
    destruct (out command); destruct (in_ command);
      destruct (open_out_ok env), (dup2_out_ok env), (open_in_ok env),
               (dup2_in_ok env), (execvp_ok env); cbn [negb];
      intros E; try discriminate E; injection E as <- <- <- <-;
      cbn [buffer emit]; auto.
Qed.



(* ------------------------------------------------------------------ *)
(** ** Executing a command *)

(** X7.  The only failure [command_execute] reports is a failed
    allocation of the argument array: whenever it returns, it returns
    [-1] exactly when [command_parse] was refused an allocation it
    needed, and then all it has done is report that failure (no [fork],
    no signal, registry untouched); in every other case it returns 0,
    even when [fork], [waitpid] or the allocation of a registry node
    failed in [command_fork]. *)
Theorem execute_reports_only_parse_failures :
  forall (env : exec_env) (w : shell) (rc : Z) (w' : shell),
    command_execute env w = Returned rc w' ->
    let n := List.length (tokens_with Argument
                            (firstn EFFECTIVE_BUFFER_SIZE (buffer w))) in
    (rc = 0%Z /\ allocations_ok (alloc env) n)
    \/ (rc = (-1)%Z
        /\ ~ allocations_ok (alloc env) n
        /\ bg_head w' = bg_head w /\ fg_pid w' = fg_pid w
        /\ interrupt w' = interrupt w
        /\ (trace w' = trace w ++ [Perror "malloc"]
            \/ trace w' = trace w ++ [Perror "realloc"])).
Proof.
  intros env w rc w' Hrun n.
  pose proof (command_parse_cases (alloc env) w) as Hcases.
  cbv zeta in Hcases. fold n in Hcases.
  assert (Hframe : bg_head (snd (command_parse (alloc env) w)) = bg_head w
                   /\ fg_pid (snd (command_parse (alloc env) w)) = fg_pid w
                   /\ interrupt (snd (command_parse (alloc env) w)) = interrupt w).
  { unfold command_parse. destruct (negb (alloc env ARGS_SIZE)); [now cbn|].
    destruct (parse_loop _ _ _ _) as [[st ok] rest]. destruct ok; now cbn. }
  unfold command_execute in Hrun.
  destruct (command_parse (alloc env) w) as [[rcp cmd] w1].
  cbn [fst snd] in Hcases, Hframe.
  destruct Hcases as [(-> & Hok & _)|(-> & Hno & _ & Htr)].
  - left. split; [|exact Hok]. cbn [Z.eqb negb] in Hrun.
    destruct (args cmd) as [[|[off|] slots]|];
      try (injection Hrun as <- _; reflexivity).
    destruct (String.eqb _ CMD_EXIT); [injection Hrun as <- _; reflexivity|].
    destruct (command_fork _ _ _ _ _ _); try discriminate Hrun.
    injection Hrun as <- _. reflexivity.
  - right. cbn [Z.eqb negb] in Hrun. injection Hrun as <- <-.
    destruct Hframe as (Hb & Hf & Hi). auto 6.
Qed.

Lemma execute_reports_only_parse_failures_witness :
  let env := mk_exec_env (fun n => n <=? 4) 77 true
                         (mk_child_env true true true true true) [] in
  let w := mk_shell false (-1) [mk_process true 9] (buffer_of "a b c d") false [] [] in
  exists w',
    command_execute env w = Returned (-1) w'
    /\ trace w' = [Perror "realloc"]
    /\ bg_head w' = [mk_process true 9].
Proof.
  intros env w.
  assert (Hrun : exists w', command_execute env w = Returned (-1) w'
                            /\ trace w' = [Perror "realloc"]).
  { eexists. split; vm_compute; reflexivity. }
  destruct Hrun as (w' & Hrun & Htr). exists w'.
  split; [exact Hrun|]. split; [exact Htr|].
  destruct (@execute_reports_only_parse_failures env w (-1)%Z w' Hrun)
    as [[C _]|(_ & _ & Hb & _)]; [discriminate C|exact Hb].
Defined.

(** X8.  What [command_execute] does is decided by the first argument
    word alone.  With the needed allocations granted and a buffer that
    ends in NUL: a line without any argument word (empty, blank, or made
    of markers and redirect targets only) is a no-op that returns 0; a
    line whose first argument word is [exit] runs the exit handler and
    returns 0 without any [fork], whatever follows the word; any other
    line goes to [command_fork] with the parsed command, and
    [command_execute] returns 0 whenever that call returns.  In
    particular a failed [fork] is reported by [perror ("fork")] and
    nothing else happens. *)
Theorem execute_dispatches_on_first_word :
  forall (env : exec_env) (w : shell),
    let l := firstn EFFECTIVE_BUFFER_SIZE (buffer w) in
    let w1 := set_buffer (map blank l ++ skipn EFFECTIVE_BUFFER_SIZE (buffer w)) w in
    allocations_ok (alloc env) (List.length (tokens_with Argument l)) ->
    Forall (fun c => c = NUL) (skipn EFFECTIVE_BUFFER_SIZE (buffer w)) ->
    match map (word_at l) (tokens_with Argument l) with
    | [] => command_execute env w = Returned 0 w1
    | first :: _ =>
        if String.eqb first CMD_EXIT
        then command_execute env w = Returned 0 (command_exit_handler w1)
        else
          (exists cmd,
              command_parse (alloc env) w = (0%Z, cmd, w1)
              /\ command_execute env w
                 = match command_fork (fork_ret env) (node_ok env) (child env)
                                      (waits env) cmd w1 with
                   | Returned _ w2 => Returned 0 w2
                   | o => o
                   end)
          /\ ((fork_ret env < 0)%Z ->
              command_execute env w
              = Returned 0 (emit (Perror "fork") (emit (Fork (fork_ret env)) w1)))
    end.
Proof.
  intros env w l w1 Hok Htail.
  destruct (@command_parse_closed_form (alloc env) w Hok) as (cap & Hcap & Hrun).
  fold l in Hcap, Hrun. fold w1 in Hrun.
  unfold command_execute. rewrite Hrun. cbn [Z.eqb negb args].
  destruct (tokens_with Argument l) as [|off offs] eqn:Hoffs.
  - cbn [map app List.length] in *.
    destruct cap as [|cap]; [lia|]. reflexivity.
  - cbn [map app].
    assert (Hword : cstring_at (buffer w1) off = word_at l off).
    { subst w1. cbn [buffer set_buffer]. apply cstring_at_blank; [exact Htail|].
      assert (Hin : In off (tokens_with Argument l)) by (rewrite Hoffs; now left).
      apply tokens_with_bound in Hin. lia. }
    rewrite Hword.
    destruct (String.eqb (word_at l off) CMD_EXIT); [reflexivity|].
    split.
    + eexists. split; reflexivity.
    + intros Hneg. unfold command_fork.
      rewrite (proj2 (Z.ltb_lt _ _) Hneg). reflexivity.
Qed.

Lemma execute_dispatches_on_first_word_witness :
  let env := mk_exec_env (fun _ => true) (-1) true
                         (mk_child_env true true true true true) [] in
  let w := mk_shell false (-1) [mk_process true 3] (buffer_of "exit now > f &")
                    false [] [] in
  let v := mk_shell false (-1) [mk_process true 3] (buffer_of "> f") false [] [] in
  (exists w', command_execute env w = Returned 0 w'
              /\ interrupt w' = true /\ trace w' = [Kill 3 SIGKILL])
  /\ (exists v', command_execute env v = Returned 0 v'
                 /\ interrupt v' = false /\ trace v' = []).
Proof.
  intros env w v.
  assert (Hok : forall n, allocations_ok (alloc env) n).
  { intros n. split; [reflexivity|]. intros k _ _. reflexivity. }
  split.
  - assert (Htail : Forall (fun c => c = NUL)
                           (skipn EFFECTIVE_BUFFER_SIZE (buffer w)))
      by (vm_compute; repeat constructor).
    pose proof (@execute_dispatches_on_first_word env w (Hok _) Htail) as H.
    vm_compute in H. eexists. split; [vm_compute; exact H|]. split; reflexivity.
  - assert (Htail : Forall (fun c => c = NUL)
                           (skipn EFFECTIVE_BUFFER_SIZE (buffer v)))
      by (vm_compute; repeat constructor).
    pose proof (@execute_dispatches_on_first_word env v (Hok _) Htail) as H.
    vm_compute in H. eexists. split; [vm_compute; exact H|]. split; reflexivity.
Defined.

(* ------------------------------------------------------------------ *)
(** ** The registry between reaper and prompt *)

Lemma mark_terminated_comm :
  forall (a b : Z) (l : list process_t),
    mark_terminated a (mark_terminated b l)
    = mark_terminated b (mark_terminated a l).
Proof.
  intros a b l. destruct (Z.eq_dec a b) as [->|Hab]; [reflexivity|].
  induction l as [|p next IH]; [reflexivity|].
  cbn [mark_terminated].
  destruct (Z.eqb_spec (pid p) b) as [Eb|Nb];
    destruct (Z.eqb_spec (pid p) a) as [Ea|Na]; cbn [mark_terminated pid].
  - congruence.
  - rewrite (proj2 (Z.eqb_neq _ _) Na), (proj2 (Z.eqb_eq _ _) Eb). reflexivity.
  - rewrite (proj2 (Z.eqb_eq _ _) Ea), (proj2 (Z.eqb_neq _ _) Nb). reflexivity.
  - rewrite (proj2 (Z.eqb_neq _ _) Na), (proj2 (Z.eqb_neq _ _) Nb).
    now rewrite IH.
Qed.

Lemma reap_one_comm :
  forall (x y : positive) (w : shell),
    reap_one (Z.pos x) (reap_one (Z.pos y) w)
    = reap_one (Z.pos y) (reap_one (Z.pos x) w).
Proof.
  intros x y [i f b buf nc tr].
  destruct (Pos.eq_dec x y) as [->|Hxy]; [reflexivity|].
  assert (Hne : Z.pos x <> Z.pos y) by congruence.
  unfold reap_one. cbn [fg_pid bg_head set_fg_pid set_bg_head].
  destruct (Z.eqb_spec (Z.pos x) f) as [Ex|Nx];
    destruct (Z.eqb_spec (Z.pos y) f) as [Ey|Ny];
    cbn [fg_pid bg_head set_fg_pid set_bg_head interrupt buffer new_command trace].
  - congruence.
  - rewrite (proj2 (Z.eqb_eq _ _) Ex). reflexivity.
  - rewrite (proj2 (Z.eqb_eq _ _) Ey). reflexivity.
  - rewrite (proj2 (Z.eqb_neq _ _) Nx), (proj2 (Z.eqb_neq _ _) Ny).
    cbn [fg_pid bg_head set_fg_pid set_bg_head interrupt buffer new_command trace].
    now rewrite mark_terminated_comm.
Qed.

Lemma reap_all_permutation :
  forall (zs zs' : list positive),
    Permutation zs zs' -> forall w, reap_all zs w = reap_all zs' w.
Proof.
  intros zs zs' H. unfold reap_all.
  induction H as [|z zs zs' H IH|x y zs|zs zs' zs'' H1 IH1 H2 IH2]; intros w.
  - reflexivity.
  - cbn [fold_left]. apply IH.
  - cbn [fold_left]. now rewrite reap_one_comm.
  - now rewrite IH1, IH2.
Qed.

(** X9.  The order in which the kernel hands over the terminated children
    does not matter: two activations of the SIGCHLD handler that find the
    same children, in any order, leave the same shell. *)
Theorem reaping_order_is_irrelevant :
  forall (fuel : nat) (inp : list ascii) (zs zs' : list positive) (w : shell),
    Permutation zs zs' ->
    List.length zs < fuel ->
    sig_handler fuel SIGCHLD (mk_kernel inp zs) w
    = sig_handler fuel SIGCHLD (mk_kernel inp zs') w
    /\ sig_handler fuel SIGCHLD (mk_kernel inp zs) w
       = Some (mk_kernel inp [], reap_all zs w).
Proof.
  intros fuel inp zs zs' w Hperm Hfuel.
  assert (Hfuel' : List.length zs' < fuel)
    by (rewrite <- (Permutation_length Hperm); exact Hfuel).
  unfold sig_handler. cbn [signal_eqb].
  rewrite (@reap_loop_drains fuel (mk_kernel inp zs) w Hfuel).
  rewrite (@reap_loop_drains fuel (mk_kernel inp zs') w Hfuel').
  cbn [stdin zombies]. rewrite (reap_all_permutation Hperm w). auto.
Qed.

Lemma reaping_order_is_irrelevant_witness :
  let w := mk_shell false 8 [mk_process true 7; mk_process true 9]
                    (repeat NUL BUFFER_SIZE) false [] [] in
  sig_handler 3 SIGCHLD (mk_kernel [] [8; 9]%positive) w
  = sig_handler 3 SIGCHLD (mk_kernel [] [9; 8]%positive) w.
Proof.
  intros w.
  apply (@reaping_order_is_irrelevant 3 [] [8; 9]%positive [9; 8]%positive w).
  - apply perm_swap.
  - cbn. lia.
Defined.

(* ------------------------------------------------------------------ *)
(** ** Notifications of terminated jobs *)

Lemma mark_terminated_as_map :
  forall (c : Z) (l : list process_t),
    NoDup (map pid l) ->
    mark_terminated c l
    = map (fun p => if (pid p =? c)%Z then mk_process false (pid p) else p) l.
Proof.
  intros c l. induction l as [|p next IH]; intros Hnd; [reflexivity|].
  cbn [map] in Hnd. inversion Hnd as [|x xs Hnotin Hnd']; subst.
  cbn [mark_terminated map].
  destruct (Z.eqb_spec (pid p) c) as [E|N].
  - f_equal. symmetry. transitivity (map (fun q : process_t => q) next);
      [|apply map_id].
    apply map_ext_in.
    intros q Hq. destruct (Z.eqb_spec (pid q) c) as [Eq|Nq]; [|reflexivity].
    elim Hnotin. rewrite E, <- Eq. now apply in_map.
  - f_equal. now apply IH.
Qed.

Lemma mark_terminated_absent :
  forall (c : Z) (l : list process_t),
    ~ In c (map pid l) -> mark_terminated c l = l.
Proof.
  intros c l. induction l as [|p next IH]; intros H; [reflexivity|].
  cbn [mark_terminated]. cbn [map In] in H.
  destruct (Z.eqb_spec (pid p) c) as [E|N]; [elim H; now left|].
  f_equal. apply IH. intros Hin. apply H. now right.
Qed.

Lemma after_reaping_cons :
  forall (z : positive) (zs : list positive) (p : process_t),
    after_reaping zs
      (if (pid p =? Z.pos z)%Z then mk_process false (pid p) else p)
    = after_reaping (z :: zs) p.
Proof.
  intros z zs p. unfold after_reaping, reaped. cbn [existsb].
  rewrite (Z.eqb_sym (Z.pos z) (pid p)).
  destruct (pid p =? Z.pos z)%Z; cbn [orb pid]; [|reflexivity].
  destruct (existsb _ zs); reflexivity.
Qed.

(** The registry after an activation of the reaper, job by job. *)
Lemma reap_all_registry :
  forall (zs : list positive) (w : shell),
    NoDup (map pid (bg_head w)) ->
    foreground_unregistered w ->
    bg_head (reap_all zs w) = map (after_reaping zs) (bg_head w).
Proof.
  induction zs as [|z zs IH]; intros w Hnd Hfg.
  - cbn [reap_all fold_left]. symmetry.
    transitivity (map (fun q : process_t => q) (bg_head w)); [|apply map_id].
    apply map_ext. intros p. reflexivity.
  - change (reap_all (z :: zs) w) with (reap_all zs (reap_one (Z.pos z) w)).
    assert (Hstep : bg_head (reap_one (Z.pos z) w)
                    = map (fun p => if (pid p =? Z.pos z)%Z
                                    then mk_process false (pid p) else p)
                          (bg_head w)).
    { unfold reap_one. destruct (Z.eqb_spec (Z.pos z) (fg_pid w)) as [E|N].
      - cbn [bg_head set_fg_pid].
        destruct Hfg as [Hfg|Hfg]; [rewrite Hfg in E; discriminate E|].
        rewrite <- (mark_terminated_absent (Z.pos z) (bg_head w)) at 1
          by (rewrite E; exact Hfg).
        now apply mark_terminated_as_map.
      - cbn [bg_head set_bg_head]. now apply mark_terminated_as_map. }
    rewrite IH.
    + rewrite Hstep, map_map. apply map_ext. intros p. apply after_reaping_cons.
    + rewrite reap_one_pids. exact Hnd.
    + unfold foreground_unregistered. rewrite reap_one_pids.
      unfold reap_one. destruct (Z.eqb_spec (Z.pos z) (fg_pid w)) as [E|N];
        cbn [fg_pid set_fg_pid set_bg_head]; [now left|exact Hfg].
Qed.

Lemma after_reaping_report :
  forall (zs : list positive) (l : list process_t),
    map notify (filter terminated (map (after_reaping zs) l))
    = map notify (filter (fun p => terminated p || reaped zs p) l).
Proof.
  intros zs l. induction l as [|p l IH]; [reflexivity|].
  cbn [map filter].
  destruct (reaped zs p) eqn:Hr.
  - assert (Hp : after_reaping zs p = mk_process false (pid p))
      by (unfold after_reaping; now rewrite Hr).
    rewrite Hp, orb_true_r. cbn [terminated running negb map].
    rewrite IH. reflexivity.
  - assert (Hp : after_reaping zs p = p)
      by (unfold after_reaping; now rewrite Hr).
    rewrite Hp, orb_false_r. destruct (terminated p); cbn [map]; now rewrite IH.
Qed.

Lemma after_reaping_keep :
  forall (zs : list positive) (l : list process_t),
    filter running (map (after_reaping zs) l)
    = filter (fun p => running p && negb (reaped zs p)) l.
Proof.
  intros zs l. induction l as [|p l IH]; [reflexivity|].
  cbn [map filter].
  destruct (reaped zs p) eqn:Hr.
  - assert (Hp : after_reaping zs p = mk_process false (pid p))
      by (unfold after_reaping; now rewrite Hr).
    rewrite Hp, andb_false_r. cbn [running]. exact IH.
  - assert (Hp : after_reaping zs p = p)
      by (unfold after_reaping; now rewrite Hr).
    rewrite Hp, andb_true_r. destruct (running p); now rewrite IH.
Qed.

Lemma filter_terminated_running :
  forall l : list process_t, filter terminated (filter running l) = [].
Proof.
  induction l as [|p l IH]; [reflexivity|]. cbn [filter].
  destruct (running p) eqn:E; [|exact IH].
  cbn [filter]. unfold terminated. rewrite E. exact IH.
Qed.

(** X10.  No notification is lost and none is repeated.  Let the SIGCHLD
    handler reap the terminated children [zombies k] while the registry
    holds pairwise distinct pids and the foreground job is not one of
    them.  Then the next prompt prints "Finished" once for every job that
    had already terminated or has just been reaped, in registry order,
    followed by the prompt; it keeps exactly the jobs that are still
    running; and the prompt after that prints nothing but the prompt and
    leaves the registry alone. *)
Theorem no_notification_is_lost_or_repeated :
  forall (fuel : nat) (k : kernel) (w : shell),
    List.length (zombies k) < fuel ->
    NoDup (map pid (bg_head w)) ->
    foreground_unregistered w ->
    exists w1,
      sig_handler fuel SIGCHLD k w = Some (mk_kernel (stdin k) [], w1)
      /\ trace (prompt_show w1)
         = trace w
           ++ map notify (filter (fun p => terminated p || reaped (zombies k) p)
                                 (bg_head w))
           ++ [Stdout PROMPT]
      /\ bg_head (prompt_show w1)
         = filter (fun p => running p && negb (reaped (zombies k) p)) (bg_head w)
      /\ trace (prompt_show (prompt_show w1))
         = trace (prompt_show w1) ++ [Stdout PROMPT]
      /\ bg_head (prompt_show (prompt_show w1)) = bg_head (prompt_show w1).
Proof.
  intros fuel k w Hfuel Hnd Hfg.
  exists (reap_all (zombies k) w). split.
  - unfold sig_handler. cbn [signal_eqb].
    now rewrite (@reap_loop_drains fuel k w Hfuel).
  - pose proof (reap_all_registry (zombies k) Hnd Hfg) as Hreg.
    pose proof (reap_all_trace (zombies k) w) as Htr.
    unfold prompt_show. rewrite !prompt_loop_spec.
    cbn [bg_head trace interrupt fg_pid buffer new_command app].
    rewrite Hreg, Htr, after_reaping_report, after_reaping_keep.
    split; [reflexivity|]. split; [reflexivity|].
    rewrite <- after_reaping_keep.
    rewrite filter_terminated_running, filter_filter_running.
    split; reflexivity.
Qed.

Lemma no_notification_witness :
  let k := mk_kernel [] [5; 6]%positive in
  let w := mk_shell false (-1)
                    [mk_process true 6; mk_process true 5; mk_process true 4;
                     mk_process false 3]
                    (repeat NUL BUFFER_SIZE) false [] [] in
  exists w1,
    sig_handler 3 SIGCHLD k w = Some (mk_kernel [] [], w1)
    /\ trace (prompt_show w1)
       = [Stdout (msg_finished 6); Stdout (msg_finished 5); Stdout (msg_finished 3);
          Stdout PROMPT]
    /\ bg_head (prompt_show w1) = [mk_process true 4].
Proof.
  intros k w.
  destruct (@no_notification_is_lost_or_repeated 3 k w) as (w1 & H1 & H2 & H3 & _).
  - cbn. lia.
  - cbn. repeat constructor; cbn; intuition discriminate.
  - now left.
  - exists w1. split; [exact H1|]. split; [rewrite H2|rewrite H3]; reflexivity.
Defined.

(* ------------------------------------------------------------------ *)
(** ** The registry after [exit] *)

Lemma reap_all_empty_registry :
  forall (zs : list positive) (w : shell),
    bg_head w = [] -> bg_head (reap_all zs w) = [].
Proof.
  induction zs as [|z zs IH]; intros w H; [exact H|].
  change (reap_all (z :: zs) w) with (reap_all zs (reap_one (Z.pos z) w)).
  apply IH. unfold reap_one.
  destruct (Z.pos z =? fg_pid w)%Z; cbn [bg_head set_fg_pid set_bg_head];
    rewrite H; reflexivity.
Qed.

(** X11.  After [exit] nothing is left to report.  [command_exit_handler]
    empties the registry, so whatever children the SIGCHLD handler reaps
    afterwards, the next [prompt_show] prints the bare prompt: the trace
    holds the SIGKILLs sent to the jobs that were running and then the
    prompt, and no "Finished" line, not even for the jobs that had
    terminated before [exit] and had not been announced yet. *)
Theorem nothing_is_reported_after_exit :
  forall (w : shell) (fuel : nat) (k : kernel),
    List.length (zombies k) < fuel ->
    exists w1,
      sig_handler fuel SIGCHLD k (command_exit_handler w)
      = Some (mk_kernel (stdin k) [], w1)
      /\ bg_head w1 = []
      /\ prompt_show w1
         = emit (Stdout PROMPT) w1
      /\ trace (prompt_show w1)
         = trace w ++ map (fun p => Kill (pid p) SIGKILL) (filter running (bg_head w))
           ++ [Stdout PROMPT].
Proof.
  intros w fuel k Hfuel.
  exists (reap_all (zombies k) (command_exit_handler w)).
  assert (Hempty : bg_head (reap_all (zombies k) (command_exit_handler w)) = [])
    by (apply reap_all_empty_registry; reflexivity).
  split; [|split; [exact Hempty|split]].
  - unfold sig_handler. cbn [signal_eqb].
    now rewrite (@reap_loop_drains fuel k (command_exit_handler w) Hfuel).
  - unfold prompt_show, emit. rewrite Hempty. reflexivity.
  - unfold prompt_show. rewrite Hempty. cbn [prompt_loop trace app].
    rewrite reap_all_trace. cbn [command_exit_handler trace].
    rewrite exit_kills_spec, <- app_assoc. reflexivity.
Qed.

Lemma nothing_is_reported_after_exit_witness :
  let w := mk_shell false (-1) [mk_process true 6; mk_process false 5]
                    (repeat NUL BUFFER_SIZE) false [] [] in
  exists w1,
    sig_handler 2 SIGCHLD (mk_kernel [] [6]%positive) (command_exit_handler w)
    = Some (mk_kernel [] [], w1)
    /\ trace (prompt_show w1) = [Kill 6 SIGKILL; Stdout PROMPT].
Proof.
  intros w.
  destruct (@nothing_is_reported_after_exit w 2 (mk_kernel [] [6]%positive))
    as (w1 & H1 & _ & _ & H2).
  - cbn. lia.
  - exists w1. split; [exact H1|]. rewrite H2. reflexivity.
Defined.

(* ------------------------------------------------------------------ *)
(** ** The interrupt key *)

(** X12.  The interrupt key never stops the shell.  On SIGINT the handler
    always returns, prints a newline and leaves [interrupt], [fg_pid] and
    the buffer alone.  With a foreground job it sends that job SIGINT and
    does nothing else; without one it sends no signal and shows the
    prompt again, which also announces and removes the jobs that have
    terminated. *)
Theorem interrupt_is_forwarded_or_redraws :
  forall (fuel : nat) (k : kernel) (w : shell),
    exists w',
      sig_handler fuel SIGINT k w = Some (k, w')
      /\ interrupt w' = interrupt w
      /\ fg_pid w' = fg_pid w
      /\ buffer w' = buffer w
      /\ (fg_pid w <> (-1)%Z ->
          bg_head w' = bg_head w
          /\ trace w' = trace w ++ [Stdout (String LF ""); Kill (fg_pid w) SIGINT])
      /\ (fg_pid w = (-1)%Z ->
          bg_head w' = filter running (bg_head w)
          /\ trace w'
             = trace w ++ [Stdout (String LF "")]
               ++ map notify (filter terminated (bg_head w)) ++ [Stdout PROMPT]).
Proof.
  intros fuel k w. unfold sig_handler. cbn [signal_eqb].
  cbn [fg_pid emit].
  destruct (Z.eqb_spec (fg_pid w) (-1)) as [E|N]; cbn [negb].
  - eexists. split; [reflexivity|].
    unfold prompt_show. rewrite prompt_loop_spec.
    cbn [interrupt fg_pid buffer bg_head trace app].
    do 3 (split; [reflexivity|]). split; [intros C; contradiction|].
    intros _. split; [reflexivity|]. unfold emit. cbn [trace bg_head app].
    now rewrite <- ?app_assoc.
  - eexists. split; [reflexivity|].
    cbn [interrupt fg_pid buffer bg_head trace].
    do 3 (split; [reflexivity|]). split; [|intros C; contradiction].
    intros _. split; [reflexivity|]. unfold emit. cbn [trace bg_head app].
    now rewrite <- ?app_assoc.
Qed.

(* ------------------------------------------------------------------ *)
(** ** What holds between two commands *)

Lemma parse_loop_length :
  forall (alloc : nat -> bool) (cs : list ascii) (i : nat) (st : parser),
    List.length (scanned (fst (fst (parse_loop alloc i cs st))))
    + List.length (snd (parse_loop alloc i cs st))
    = List.length (scanned st) + List.length cs.
Proof.
  intros alloc cs. induction cs as [|c cs IH]; intros i st.
  - cbn. lia.
  - cbn [parse_loop].
    destruct (isspace c || is_nul c).
    + rewrite IH. cbn [parse_space scanned]. rewrite length_app. cbn. lia.
    + destruct (is_marker c).
      * rewrite IH. cbn [parse_marker scanned]. rewrite length_app. cbn. lia.
      * assert (Hb : List.length (scanned (parse_begin i c st))
                     = S (List.length (scanned st))).
        { unfold parse_begin.
          destruct (ignore st); [|destruct (Ascii.eqb (token st) REDIR_IN);
                                  [|destruct (Ascii.eqb (token st) REDIR_OUT)]];
            cbn [scanned]; rewrite length_app; cbn; lia. }
        destruct (args_size (parse_begin i c st)
                  <=? List.length (p_args (parse_begin i c st))).
        -- destruct (alloc (args_size (parse_grow (parse_begin i c st)))).
           ++ rewrite IH. cbn [parse_grow scanned List.length]. lia.
           ++ cbn [fst snd parse_grow scanned List.length]. lia.
        -- rewrite IH. cbn [List.length]. lia.
Qed.

Lemma command_parse_frame :
  forall (alloc : nat -> bool) (w : shell),
    interrupt (snd (command_parse alloc w)) = interrupt w
    /\ fg_pid (snd (command_parse alloc w)) = fg_pid w
    /\ bg_head (snd (command_parse alloc w)) = bg_head w
    /\ new_command (snd (command_parse alloc w)) = new_command w
    /\ List.length (buffer (snd (command_parse alloc w))) = List.length (buffer w).
Proof.
  intros alloc w. unfold command_parse.
  destruct (negb (alloc ARGS_SIZE)); [cbn; auto|].
  pose proof (parse_loop_length alloc (firstn EFFECTIVE_BUFFER_SIZE (buffer w))
                                0 parser_init) as Hlen.
  destruct (parse_loop alloc 0 (firstn EFFECTIVE_BUFFER_SIZE (buffer w)) parser_init)
    as [[st ok] rest].
  cbn [fst snd parser_init scanned List.length] in Hlen.
  assert (Hbuf : List.length (scanned st ++ rest
                              ++ skipn EFFECTIVE_BUFFER_SIZE (buffer w))
                 = List.length (buffer w)).
  { rewrite !length_app.
    assert (Hsplit : List.length (firstn EFFECTIVE_BUFFER_SIZE (buffer w))
                     + List.length (skipn EFFECTIVE_BUFFER_SIZE (buffer w))
                     = List.length (buffer w))
      by (rewrite <- length_app, firstn_skipn; reflexivity).
    lia. }
  destruct ok; cbn [snd interrupt fg_pid bg_head new_command buffer set_buffer emit];
    auto.
Qed.

Lemma command_fork_returned :
  forall (c_pid : Z) (node : bool) (env : child_env) (answers : list wait_result)
         (command : command_t) (w : shell) (rc : Z) (w' : shell),
    command_fork c_pid node env answers command w = Returned rc w' ->
    interrupt w' = interrupt w
    /\ buffer w' = buffer w
    /\ new_command w' = new_command w
    /\ (fg_pid w' = fg_pid w \/ fg_pid w' = (-1)%Z)
    /\ (bg_head w' = bg_head w
        \/ ((0 < c_pid)%Z /\ bg_head w' = mk_process true c_pid :: bg_head w)).
Proof.
  intros c_pid node env answers command w rc w'. unfold command_fork.
  destruct (Z.ltb_spec c_pid 0) as [Hneg|Hnn].
  - intros [= _ <-]. cbn. repeat split; auto.
  - destruct (Z.gtb_spec c_pid 0) as [Hpos|Hz].
    + destruct (negb (run_in_bg command)).
      * destruct (wait_loop answers (set_fg_pid c_pid (emit (Fork c_pid) w)))
          as [[b w1]|] eqn:E; [|discriminate].
        destruct (wait_loop_result _ _ E) as [[-> ->]|[-> ->]];
          intros [= _ <-]; cbn; repeat split; auto.
      * destruct (negb node); intros [= _ <-]; cbn; repeat split; auto.
    + intros E. pose proof (command_child_leaves env command (emit (Fork c_pid) w)) as H.
      rewrite E in H. contradiction.
Qed.

Lemma command_execute_returned :
  forall (env : exec_env) (w : shell) (rc : Z) (w' : shell),
    command_execute env w = Returned rc w' ->
    new_command w' = new_command w
    /\ List.length (buffer w') = List.length (buffer w)
    /\ (fg_pid w' = fg_pid w \/ fg_pid w' = (-1)%Z)
    /\ (forall P : process_t -> Prop,
           (forall c, (0 < c)%Z -> P (mk_process true c)) ->
           Forall P (bg_head w) -> Forall P (bg_head w')).
Proof.
  intros env w rc w'. unfold command_execute.
  destruct (command_parse_frame (alloc env) w) as (Hi & Hf & Hb & Hn & Hl).
  destruct (command_parse (alloc env) w) as [[rcp cmd] w1].
  cbn [snd] in *.
  assert (Hsame : new_command w1 = new_command w
                  /\ List.length (buffer w1) = List.length (buffer w)
                  /\ (fg_pid w1 = fg_pid w \/ fg_pid w1 = (-1)%Z)
                  /\ (forall P : process_t -> Prop,
                         (forall c, (0 < c)%Z -> P (mk_process true c)) ->
                         Forall P (bg_head w) -> Forall P (bg_head w1))).
  { repeat split; auto. intros P _ H. now rewrite Hb. }
  destruct (negb (rcp =? 0)%Z); [intros [= _ <-]; exact Hsame|].
  destruct (args cmd) as [[|[off|] slots]|];
    try (intros [= _ <-]; exact Hsame).
  destruct (String.eqb _ CMD_EXIT).
  - intros [= _ <-]. cbn [command_exit_handler new_command buffer fg_pid bg_head].
    repeat split; auto.
  - destruct (command_fork _ _ _ _ _ _) as [rc2 w2| | |] eqn:E; try discriminate.
    intros [= _ <-].
    destruct (command_fork_returned _ _ _ _ _ _ E) as (Hi2 & Hb2 & Hn2 & Hf2 & Hr2).
    split; [congruence|]. split; [congruence|]. split.
    + destruct Hf2 as [Hf2|Hf2]; [left; congruence|now right].
    + intros P HP H. rewrite <- Hb in H.
      destruct Hr2 as [->|[Hpos ->]]; [exact H|].
      constructor; [now apply HP|exact H].
Qed.

(* ------------------------------------------------------------------ *)
(** ** Frame of [input_read] *)

Lemma reap_loop_some :
  forall (fuel : nat) (k : kernel) (w : shell) (k' : kernel) (w' : shell),
    reap_loop fuel k w = Some (k', w') ->
    w' = reap_all (zombies k) w /\ k' = mk_kernel (stdin k) [].
Proof.
  induction fuel as [|fuel IH]; intros [inp zs] w k' w' H; [discriminate H|].
  destruct zs as [|z zs]; cbn in H.
  - injection H as <- <-. auto.
  - apply IH in H. cbn [zombies stdin] in *. exact H.
Qed.

Lemma positive_pids_by_map :
  forall l l' : list process_t,
    map pid l' = map pid l ->
    Forall (fun p => (0 < pid p)%Z) l -> Forall (fun p => (0 < pid p)%Z) l'.
Proof.
  intros l l' Hmap H.
  apply (proj2 (Forall_map pid (fun x => (0 < x)%Z) l)) in H.
  apply (proj1 (Forall_map pid (fun x => (0 < x)%Z) l')).
  now rewrite Hmap.
Qed.

Lemma filter_keeps_positive :
  forall (f : process_t -> bool) (l : list process_t),
    Forall (fun p => (0 < pid p)%Z) l ->
    Forall (fun p => (0 < pid p)%Z) (filter f l).
Proof.
  intros f l H. rewrite Forall_forall in *. intros p Hp.
  apply filter_In in Hp. now apply H.
Qed.

Lemma prompt_show_at_rest :
  forall w, at_rest w -> at_rest (prompt_show w).
Proof.
  intros w (Hf & Hn & Hp & Hl). unfold prompt_show. rewrite prompt_loop_spec.
  unfold at_rest. cbn [fg_pid new_command bg_head buffer app].
  repeat split; auto. now apply filter_keeps_positive.
Qed.

Lemma reap_all_at_rest :
  forall (zs : list positive) (w : shell), at_rest w -> at_rest (reap_all zs w).
Proof.
  induction zs as [|z zs IH]; intros w H; [exact H|].
  change (reap_all (z :: zs) w) with (reap_all zs (reap_one (Z.pos z) w)).
  apply IH. destruct H as (Hf & Hn & Hp & Hl).
  pose proof (reap_one_pids (Z.pos z) w) as Hpids.
  destruct (reap_one_frame (Z.pos z) w) as (_ & Hb & _ & Hnc).
  unfold at_rest. rewrite Hb, Hnc.
  repeat split; auto.
  - unfold reap_one. rewrite Hf. cbn [Z.eqb fg_pid set_bg_head]. exact Hf.
  - now apply (@positive_pids_by_map _ _ Hpids).
Qed.

(** X13.  What holds between two commands.  [at_rest] (no foreground job,
    hand-over flag down, every registered pid positive, buffer of
    [BUFFER_SIZE] bytes) holds initially, is kept by every round of the
    two handlers that returns, whatever the environment answers, and is
    kept by the signal handler for every signal.  In such a state the
    foreground pid is not in the registry, which is what the reaper needs
    to tell a foreground child from a background one. *)
Theorem shell_keeps_its_invariants :
  at_rest shell_init
  /\ (forall env k w k' rc w',
         at_rest w ->
         handshake_round env k w = Some (k', Returned rc w') ->
         at_rest w')
  /\ (forall fuel sig k w k' w',
         at_rest w ->
         sig_handler fuel sig k w = Some (k', w') ->
         at_rest w')
  /\ (forall w, at_rest w -> foreground_unregistered w).
Proof.
  split; [|split; [|split]].
  - unfold at_rest, shell_init. cbn [fg_pid new_command bg_head buffer].
    rewrite repeat_length. auto.
  - intros env k w k' rc w' Hrest. unfold handshake_round.
    pose proof (@prompt_show_at_rest w Hrest) as (Hf & Hn & Hp & Hl).
    destruct (input_read _ _ _ k (prompt_show w)) as [[[rc1 k1] w1]|] eqn:Hread;
      [|discriminate].
    destruct (input_read_frame _ _ _ _ _ Hread) as (_ & Hf1 & Hb1 & Hn1 & Hl1 & _).
    destruct (rc1 =? 0)%Z.
    + destruct (command_execute (exec env) (set_new_command true w1))
        as [rc2 w2| | |] eqn:Hexec; try discriminate.
      intros H. injection H as _ _ <-.
      destruct (command_execute_returned _ _ Hexec) as (_ & Hl2 & Hf2 & Hp2).
      cbn [new_command buffer fg_pid bg_head set_new_command] in *.
      unfold at_rest. cbn [new_command buffer fg_pid bg_head set_new_command].
      repeat split.
      * destruct Hf2 as [Hf2|Hf2]; congruence.
      * apply Hp2; [intros c Hc; exact Hc|]. now rewrite Hb1.
      * congruence.
    + intros H. injection H as _ _ <-. unfold at_rest.
      rewrite Hf1, Hb1, Hn1, Hl1. auto.
  - intros fuel sig k w k' w' Hrest. unfold sig_handler.
    destruct sig; cbn [signal_eqb].
    + destruct Hrest as (Hf & Hn & Hp & Hl). cbn [fg_pid emit]. rewrite Hf.
      cbn [Z.eqb negb]. intros H. injection H as _ <-.
      apply prompt_show_at_rest. unfold at_rest, emit.
      cbn [fg_pid new_command bg_head buffer]. auto.
    + intros H. injection H as _ <-. exact Hrest.
    + destruct (reap_loop fuel k w) as [[k1 w1]|] eqn:E; [|discriminate].
      intros H. injection H as _ <-.
      apply reap_loop_some in E. destruct E as [-> _].
      now apply reap_all_at_rest.
    + intros H. injection H as _ <-. exact Hrest.
    + intros H. injection H as _ <-. exact Hrest.
  - intros w (Hf & _). now left.
Qed.

Lemma shell_keeps_its_invariants_witness :
  let env := mk_round_env 0 by_line (ReadBytes 80)
               (mk_exec_env (fun _ => true) 50 true
                            (mk_child_env true true true true true) []) in
  let k := mk_kernel (line "sleep 5 &" ++ [LF]) [] in
  exists k' w',
    handshake_round env k shell_init = Some (k', Returned 0 w')
    /\ at_rest w'
    /\ bg_head w' = [mk_process true 50].
Proof.
  intros env k.
  assert (Hrun : exists k' w', handshake_round env k shell_init
                               = Some (k', Returned 0 w')
                               /\ bg_head w' = [mk_process true 50]).
  { eexists. eexists. split; vm_compute; reflexivity. }
  destruct Hrun as (k' & w' & Hrun & Hreg). exists k', w'.
  split; [exact Hrun|]. split; [|exact Hreg].
  destruct shell_keeps_its_invariants as (H0 & Hround & _).
  exact (Hround env k shell_init k' 0%Z w' H0 Hrun).
Defined.

(** X14.  What an accepted read leaves in the buffer.  When [input_read]
    returns 0 it has consumed exactly the bytes that [read] delivered.
    If there were none (end of input) the buffer holds "exit" and "exit"
    is echoed.  Otherwise the buffer holds the delivered bytes without
    their final newline, followed by NULs up to [BUFFER_SIZE], and a
    newline is printed exactly when the input did not end in one. *)
Theorem accepted_input_is_the_line_without_its_newline :
  forall (fuel : nat) (fill : list ascii -> nat) (n : nat) (k : kernel) (w : shell)
         (k' : kernel) (w' : shell),
    input_read fuel fill (ReadBytes n) k w = Some (0%Z, k', w') ->
    stdin k' = unread n k
    /\ (delivered n k = [] ->
        buffer w' = padded (line CMD_EXIT) /\ trace w' = trace w ++ [echo_exit])
    /\ (delivered n k <> [] ->
        buffer w' = padded (chomp (delivered n k))
        /\ trace w'
           = trace w ++ (if Ascii.eqb (last (delivered n k) NUL) LF
                         then [] else [Stdout (String LF "")])).
Proof. exact input_read_accepted. Qed.

Lemma accepted_input_witness :
  let k := mk_kernel (line "ls -l" ++ LF :: line "pwd") [] in
  input_read 0 by_line (ReadBytes 6) k shell_init
  = Some (0%Z, mk_kernel (line "pwd") [],
          set_buffer (padded (line "ls -l")) shell_init)
  /\ buffer (set_buffer (padded (line "ls -l")) shell_init)
     = padded (chomp (delivered 6 k)).
Proof.
  intros k.
  assert (Hrun : input_read 0 by_line (ReadBytes 6) k shell_init
                 = Some (0%Z, mk_kernel (line "pwd") [],
                         set_buffer (padded (line "ls -l")) shell_init))
    by (vm_compute; reflexivity).
  split; [exact Hrun|].
  destruct (@accepted_input_is_the_line_without_its_newline
              0 by_line 6 k shell_init _ _ Hrun) as (_ & _ & H).
  apply H. vm_compute. discriminate.
Defined.

(* ------------------------------------------------------------------ *)
(** ** A rejected read *)

(** X15.  A rejected read executes nothing.  When [input_read] returns
    [-1], the round of the two handlers returns [-1] with the state
    [input_read] left: the command handler is not woken, nothing is
    parsed, forked or killed.  Beyond the prompt (with its pending
    notifications) the only output is the one diagnostic: [perror
    ("read")] when [read] failed, or the "too long" message when [read]
    filled all [BUFFER_SIZE] bytes. *)
Theorem rejected_input_executes_nothing :
  forall (env : round_env) (k : kernel) (w : shell) (k1 : kernel) (w1 : shell),
    input_read (drain_fuel env) (stdio_fill env) (read_ans env) k (prompt_show w)
    = Some ((-1)%Z, k1, w1) ->
    handshake_round env k w = Some (k1, Returned (-1) w1)
    /\ bg_head w1 = filter running (bg_head w)
    /\ interrupt w1 = interrupt w
    /\ fg_pid w1 = fg_pid w
    /\ new_command w1 = new_command w
    /\ ((read_ans env = ReadError
         /\ trace w1
            = trace w ++ (map notify (filter terminated (bg_head w)) ++ [Stdout PROMPT])
              ++ [Perror "read"])
        \/ (exists n, read_ans env = ReadBytes n
                      /\ List.length (delivered n k) = BUFFER_SIZE
                      /\ trace w1
                         = trace w
                           ++ (map notify (filter terminated (bg_head w))
                               ++ [Stdout PROMPT])
                           ++ [Stderr msg_too_long])).
Proof.
  intros env k w k1 w1 Hread.
  destruct (input_read_frame _ _ _ _ _ Hread) as (Hi & Hf & Hb & Hn & _ & _).
  assert (Hp : bg_head (prompt_show w) = filter running (bg_head w)
               /\ trace (prompt_show w)
                  = trace w ++ map notify (filter terminated (bg_head w))
                    ++ [Stdout PROMPT]
               /\ interrupt (prompt_show w) = interrupt w
               /\ fg_pid (prompt_show w) = fg_pid w
               /\ new_command (prompt_show w) = new_command w).
  { unfold prompt_show. rewrite prompt_loop_spec. cbn. auto. }
  destruct Hp as (Hpb & Hpt & Hpi & Hpf & Hpn).
  split; [unfold handshake_round; rewrite Hread; reflexivity|].
  split; [congruence|]. split; [congruence|]. split; [congruence|].
  split; [congruence|].
  destruct (read_ans env) as [|n] eqn:Hans.
  - left. split; [reflexivity|]. cbn [input_read] in Hread. some_triple Hread.
    cbn [trace emit set_buffer]. rewrite Hpt, <- app_assoc. reflexivity.
  - right. exists n. split; [reflexivity|].
    destruct (input_read_verdict _ _ _ _ _ Hread) as [(_ & Hlen & Htr)|(C & _)];
      [|discriminate C].
    split; [exact Hlen|]. rewrite Htr, Hpt, <- app_assoc. reflexivity.
Qed.

Lemma rejected_input_witness :
  let env := mk_round_env 0 by_line ReadError
               (mk_exec_env (fun _ => true) 50 true
                            (mk_child_env true true true true true) []) in
  let w := mk_shell false (-1) [mk_process false 4] (buffer_of "ls") false [] [] in
  handshake_round env (mk_kernel (line "ls") []) w
  = Some (mk_kernel (line "ls") [],
          Returned (-1)
                   (mk_shell false (-1) [] (repeat NUL BUFFER_SIZE) false
                             [notify (mk_process false 4); Stdout PROMPT;
                              Perror "read"] [])).
Proof.
  intros env w.
  apply (@rejected_input_executes_nothing env (mk_kernel (line "ls") []) w).
  vm_compute. reflexivity.
Defined.

(* ------------------------------------------------------------------ *)
(** ** The loops end only through [exit] *)

Lemma command_execute_interrupt :
  forall (env : exec_env) (v : shell) (rc : Z) (v' : shell),
    command_execute env v = Returned rc v' ->
    interrupt v' = interrupt v
    \/ (exists cmd v1 off slots,
           command_parse (alloc env) v = (0%Z, cmd, v1)
           /\ args cmd = Some (Some off :: slots)
           /\ cstring_at (buffer v1) off = CMD_EXIT
           /\ v' = command_exit_handler v1).
Proof.
  intros env v rc v'. unfold command_execute.
  destruct (command_parse_frame (alloc env) v) as (Hi & _).
  pose proof (command_parse_cases (alloc env) v) as Hcases. cbv zeta in Hcases.
  destruct (command_parse (alloc env) v) as [[rcp cmd] v1].
  cbn [fst snd] in *.
  destruct Hcases as [(-> & _)|(-> & _)]; cbn [Z.eqb negb].
  - destruct (args cmd) as [[|[off|] slots]|] eqn:Ha;
      try (intros [= _ <-]; now left).
    destruct (String.eqb _ CMD_EXIT) eqn:Hexit.
    + intros [= _ <-]. right. exists cmd, v1, off, slots.
      apply String.eqb_eq in Hexit. auto.
    + destruct (command_fork _ _ _ _ _ _) as [rc2 v2| | |] eqn:E; try discriminate.
      intros [= _ <-]. left.
      destruct (command_fork_returned _ _ _ _ _ _ E) as (Hi2 & _). congruence.
  - intros [= _ <-]. now left.
Qed.

(** X16.  The shell stops only through [exit].  A run of the handler
    loops that ends, ends with [interrupt] set; with [interrupt] set no
    further round is started; and a round that starts with [interrupt]
    clear and returns with it set is one whose read was accepted, whose
    line parsed, and whose first word is "exit".  Launch failures, parse
    failures and rejected reads never set the flag. *)
Theorem shell_stops_only_after_exit :
  (forall envs k w k' w',
      shell_run envs k w = Some (k', w') -> interrupt w' = true)
  /\ (forall envs k w, interrupt w = true -> shell_run envs k w = Some (k, w))
  /\ (forall env k w k' rc w',
         interrupt w = false ->
         handshake_round env k w = Some (k', Returned rc w') ->
         interrupt w' = true ->
         exists k1 v cmd v1 off slots,
           input_read (drain_fuel env) (stdio_fill env) (read_ans env) k (prompt_show w)
           = Some (0%Z, k1, v)
           /\ command_parse (alloc (exec env)) (set_new_command true v)
              = (0%Z, cmd, v1)
           /\ args cmd = Some (Some off :: slots)
           /\ cstring_at (buffer v1) off = CMD_EXIT).
Proof.
  split; [|split].
  - induction envs as [|env envs IH]; intros k w k' w'; cbn [shell_run].
    + destruct (interrupt w) eqn:Hi; [|discriminate].
      intros [= _ <-]. exact Hi.
    + destruct (interrupt w) eqn:Hi; [intros [= _ <-]; exact Hi|].
      destruct (handshake_round env k w) as [[k1 [rc w1| | |]]|]; try discriminate.
      apply IH.
  - intros envs k w Hi. destruct envs; cbn [shell_run]; now rewrite Hi.
  - intros env k w k' rc w' Hi Hround Hi'. unfold handshake_round in Hround.
    assert (Hpi : interrupt (prompt_show w) = interrupt w).
    { unfold prompt_show. rewrite prompt_loop_spec. reflexivity. }
    destruct (input_read _ _ _ k (prompt_show w)) as [[[rc1 k1] v]|] eqn:Hread;
      [|discriminate].
    destruct (input_read_frame _ _ _ _ _ Hread) as (Hiv & _).
    destruct (Z.eqb_spec rc1 0) as [->|Hrc].
    + destruct (command_execute (exec env) (set_new_command true v))
        as [rc2 v2| | |] eqn:Hexec; try discriminate.
      injection Hround as _ _ <-. cbn [interrupt set_new_command] in Hi'.
      destruct (command_execute_interrupt _ _ Hexec)
        as [Hsame|(cmd & v1 & off & slots & Hp & Ha & Hs & _)].
      * cbn [interrupt set_new_command] in Hsame. congruence.
      * exists k1, v, cmd, v1, off, slots. auto.
    + injection Hround as _ _ <-. congruence.
Qed.

Lemma shell_stops_only_after_exit_witness :
  let env := mk_round_env 0 by_line (ReadBytes 513)
               (mk_exec_env (fun _ => true) 50 true
                            (mk_child_env true true true true true) []) in
  let k := mk_kernel (line "exit" ++ [LF]) [] in
  exists k' w',
    shell_run [env] k shell_init = Some (k', w') /\ interrupt w' = true.
Proof.
  intros env k.
  destruct (shell_run [env] k shell_init) as [[k' w']|] eqn:Hrun.
  - exists k', w'. split; [reflexivity|].
    exact (proj1 shell_stops_only_after_exit [env] k shell_init k' w' Hrun).
  - vm_compute in Hrun. discriminate Hrun.
Defined.

(* ------------------------------------------------------------------ *)
(** ** What follows an over-long line *)

Lemma skipn_length_firstn :
  forall (A : Type) (a : nat) (l : list A),
    skipn (List.length (firstn a l)) l = skipn a l.
Proof.
  intros A a. induction a as [|a IH]; intros l; [reflexivity|].
  destruct l as [|x l]; [reflexivity|]. cbn [firstn List.length skipn]. apply IH.
Qed.

Lemma firstn_past_newline :
  forall (pre rest : list ascii) (m : nat),
    List.length pre < m ->
    firstn m (pre ++ LF :: rest)
    = pre ++ LF :: firstn (m - S (List.length pre)) rest.
Proof.
  induction pre as [|c pre IH]; intros rest m Hm.
  - destruct m as [|m]; [inversion Hm|]. cbn [app firstn List.length].
    now rewrite Nat.sub_succ, Nat.sub_0_r.
  - destruct m as [|m]; [inversion Hm|]. cbn [app firstn List.length] in *.
    rewrite IH by lia. reflexivity.
Qed.

(** Draining from stdio's buffer alone, when the newline is in it. *)
Lemma drain_line_buffered :
  forall (fill : list ascii -> nat) (pre rest : list ascii) (fuel : nat)
         (k : kernel) (w : shell),
    stdin_buf w = pre ++ LF :: rest ->
    ~ In LF pre ->
    List.length pre < fuel ->
    drain_line fuel fill k w = Some (k, set_stdin_buf rest w).
Proof.
  intros fill pre. induction pre as [|c pre IH]; intros rest fuel k w Hb Hno Hlt;
    (destruct fuel as [|fuel]; [inversion Hlt|]);
    cbn [drain_line]; unfold getchar; rewrite Hb; cbn [app]; rewrite code_is_LF.
  - rewrite Ascii.eqb_refl. reflexivity.
  - destruct (Ascii.eqb_spec c LF) as [->|N]; [elim Hno; now left|].
    cbn [negb]. rewrite (IH rest fuel k (set_stdin_buf (pre ++ LF :: rest) w)).
    + reflexivity.
    + reflexivity.
    + intros H. apply Hno. now right.
    + cbn [List.length] in Hlt. lia.
Qed.

(** Draining when stdio's buffer is empty and the first block read
    reaches the newline: the bytes of the block that follow the newline
    stay in stdio's buffer, the descriptor continues after the block. *)
Lemma drain_line_first_block :
  forall (fill : list ascii -> nat) (pre rest : list ascii) (fuel : nat)
         (k : kernel) (w : shell),
    stdin_buf w = [] ->
    stdin k = pre ++ LF :: rest ->
    ~ In LF pre ->
    List.length pre < fill (stdin k) ->
    List.length pre < fuel ->
    drain_line fuel fill k w
    = Some (mk_kernel (skipn (fill (stdin k) - S (List.length pre)) rest) (zombies k),
            set_stdin_buf (firstn (fill (stdin k) - S (List.length pre)) rest) w).
Proof.
  intros fill pre rest fuel k w Hb Hin Hno Hm Hlt.
  destruct fuel as [|fuel]; [inversion Hlt|].
  cbn [drain_line]. unfold getchar. rewrite Hb. cbv zeta.
  rewrite Hin in *. rewrite (firstn_past_newline pre rest Hm).
  set (a := fill (pre ++ LF :: rest) - S (List.length pre)).
  assert (Hskip : skipn (List.length (pre ++ LF :: firstn a rest)) (pre ++ LF :: rest)
                  = skipn a rest).
  { rewrite length_app. cbn [List.length].
    rewrite skipn_app.
    replace (List.length pre + S (List.length (firstn a rest)) - List.length pre)
      with (S (List.length (firstn a rest))) by lia.
    rewrite skipn_all2 by lia. cbn [app skipn]. apply skipn_length_firstn. }
  destruct pre as [|c pre]; cbn [app] in *.
  - rewrite code_is_LF, Ascii.eqb_refl. cbn [negb]. rewrite Hskip. reflexivity.
  - rewrite code_is_LF.
    destruct (Ascii.eqb_spec c LF) as [->|N]; [elim Hno; now left|].
    cbn [negb]. rewrite Hskip.
    rewrite (@drain_line_buffered fill pre (firstn a rest) fuel).
    + reflexivity.
    + reflexivity.
    + intros H. apply Hno. now right.
    + cbn [List.length] in Hlt. lia.
Qed.

Lemma input_read_overlong_line :
  forall (fuel : nat) (fill : list ascii -> nat) (cmd rest : list ascii)
         (zs : list positive) (w : shell),
    ~ In LF cmd ->
    BUFFER_SIZE <= List.length cmd ->
    stdin_buf w = [] ->
    List.length cmd - BUFFER_SIZE < fill (skipn BUFFER_SIZE cmd ++ LF :: rest) ->
    List.length cmd - BUFFER_SIZE < fuel ->
    let a := fill (skipn BUFFER_SIZE cmd ++ LF :: rest)
             - S (List.length cmd - BUFFER_SIZE) in
    input_read fuel fill (ReadBytes (S (List.length cmd)))
               (mk_kernel (cmd ++ LF :: rest) zs) w
    = Some ((-1)%Z, mk_kernel (skipn a rest) zs,
            set_stdin_buf (firstn a rest)
              (emit (Stderr msg_too_long)
                    (set_buffer (firstn BUFFER_SIZE cmd) w))).
Proof.
  intros fuel fill cmd rest zs w Hno Hlen Hbuf Hfill Hfuel a.
  set (k := mk_kernel (cmd ++ LF :: rest) zs).
  assert (Hn : BUFFER_SIZE <= S (List.length cmd)) by lia.
  assert (Hk : BUFFER_SIZE <= List.length (stdin k)).
  { subst k. cbn [stdin]. rewrite length_app. cbn [List.length]. lia. }
  destruct (delivered_full k Hn Hk) as (Hbs & Hfull & Hun).
  cbn [stdin k] in Hbs, Hun.
  assert (Hbs' : delivered (S (List.length cmd)) k = firstn BUFFER_SIZE cmd).
  { rewrite Hbs, firstn_app.
    replace (BUFFER_SIZE - List.length cmd) with 0 by lia.
    cbn [firstn]. apply app_nil_r. }
  assert (Hun' : unread (S (List.length cmd)) k
                 = skipn BUFFER_SIZE cmd ++ LF :: rest).
  { rewrite Hun, skipn_app.
    replace (BUFFER_SIZE - List.length cmd) with 0 by lia. reflexivity. }
  assert (Hlast : Ascii.eqb (nth (BUFFER_SIZE - 1) (firstn BUFFER_SIZE cmd) NUL) LF
                  = false).
  { apply Ascii.eqb_neq. intros C. apply Hno.
    apply (@in_firstn_in _ LF BUFFER_SIZE). rewrite <- C.
    apply nth_In. rewrite length_firstn. unfold BUFFER_SIZE in *. lia. }
  assert (Hov : overwrite (firstn BUFFER_SIZE cmd) (repeat NUL BUFFER_SIZE)
                = firstn BUFFER_SIZE cmd).
  { unfold overwrite. rewrite skipn_all2; [apply app_nil_r|].
    rewrite repeat_length, length_firstn. lia. }
  rewrite input_read_bytes. cbv zeta. rewrite Hbs', Hun', Hov.
  assert (Hl : List.length (firstn BUFFER_SIZE cmd) = BUFFER_SIZE)
    by (rewrite length_firstn; lia).
  rewrite Hl.
  replace (EFFECTIVE_BUFFER_SIZE <? BUFFER_SIZE) with true by reflexivity.
  rewrite Hlast. cbn [negb].
  rewrite (@drain_line_first_block fill (skipn BUFFER_SIZE cmd) rest fuel).
  - cbn [stdin zombies]. rewrite length_skipn. fold a.
    unfold set_stdin_buf, emit, set_buffer.
    cbn [interrupt fg_pid bg_head buffer new_command trace stdin_buf].
    reflexivity.
  - exact Hbuf.
  - reflexivity.
  - intros H. apply Hno. now apply in_skipn_in in H.
  - cbn [stdin]. rewrite length_skipn. exact Hfill.
  - rewrite length_skipn. exact Hfuel.
Qed.

(** X18.  What follows an over-long line.  Let a line of 513 or more
    characters and its newline be followed by [rest], with nothing in
    stdio's buffer, and let there be fuel for the characters beyond the
    buffer.  On a terminal, which answers a block read with one line,
    [input_read] returns [-1] and the next [read] starts right after the
    newline.  On a pipe or a file whose block read delivers all that is
    there, [input_read] returns [-1] with the descriptor at end of input
    and [rest] in stdio's buffer, where [read] never looks: whatever the
    next [read] is offered, it delivers nothing, and [input_read]
    synthesizes [exit] without any line of [rest] having been read. *)
Theorem what_follows_an_overlong_line :
  forall (fuel : nat) (cmd rest : list ascii) (zs : list positive) (w : shell),
    ~ In LF cmd ->
    BUFFER_SIZE <= List.length cmd ->
    stdin_buf w = [] ->
    List.length cmd - BUFFER_SIZE < fuel ->
    let w1 := emit (Stderr msg_too_long) (set_buffer (firstn BUFFER_SIZE cmd) w) in
    input_read fuel by_line (ReadBytes (S (List.length cmd)))
               (mk_kernel (cmd ++ LF :: rest) zs) w
    = Some ((-1)%Z, mk_kernel rest zs, w1)
    /\ (forall blk,
           List.length cmd - BUFFER_SIZE + S (List.length rest) <= blk ->
           input_read fuel (by_block blk) (ReadBytes (S (List.length cmd)))
                      (mk_kernel (cmd ++ LF :: rest) zs) w
           = Some ((-1)%Z, mk_kernel [] zs, set_stdin_buf rest w1)
           /\ forall fuel' fill' n,
                input_read fuel' fill' (ReadBytes n) (mk_kernel [] zs)
                           (set_stdin_buf rest w1)
                = Some (0%Z, mk_kernel [] zs,
                        emit echo_exit
                             (set_buffer (buffer_of CMD_EXIT) (set_stdin_buf rest w1)))).
Proof.
  intros fuel cmd rest zs w Hno Hlen Hbuf Hfuel w1.
  assert (Hno' : ~ In LF (skipn BUFFER_SIZE cmd))
    by (intros H; apply Hno; now apply in_skipn_in in H).
  split.
  - rewrite (@input_read_overlong_line fuel by_line cmd rest zs w Hno Hlen Hbuf).
    + unfold by_line. rewrite (take_while_not_LF _ rest Hno'), length_skipn.
      rewrite Nat.sub_diag. cbn [skipn firstn]. subst w1.
      destruct w as [i f b u nc t sb]. cbn [stdin_buf] in Hbuf. subst sb.
      reflexivity.
    + unfold by_line. rewrite (take_while_not_LF _ rest Hno'), length_skipn. lia.
    + exact Hfuel.
  - intros blk Hblk. split.
    + rewrite (@input_read_overlong_line fuel (by_block blk) cmd rest zs w Hno Hlen Hbuf).
      * unfold by_block. rewrite skipn_all2, firstn_all2 by lia. reflexivity.
      * unfold by_block. lia.
      * exact Hfuel.
    + intros fuel' fill' n. apply input_read_eof.
      unfold delivered, read_stdin. cbn [fst stdin]. apply firstn_nil.
Qed.

Lemma what_follows_an_overlong_line_witness :
  let inp := repeat "a"%char 513 ++ LF :: line "ls" ++ [LF] in
  exists w1,
    input_read 1 by_line (ReadBytes 600) (mk_kernel inp []) shell_init
    = Some ((-1)%Z, mk_kernel (line "ls" ++ [LF]) [], w1)
    /\ stdin_buf w1 = []
    /\ input_read 1 (by_block 4096) (ReadBytes 600) (mk_kernel inp []) shell_init
       = Some ((-1)%Z, mk_kernel [] [], set_stdin_buf (line "ls" ++ [LF]) w1).
Proof.
  intros inp.
  assert (Hno : ~ In LF (repeat "a"%char 513)).
  { intros H. apply repeat_spec in H. discriminate H. }
  destruct (@what_follows_an_overlong_line 1 (repeat "a"%char 513) (line "ls" ++ [LF])
              [] shell_init Hno) as [HA HB].
  - rewrite repeat_length. unfold BUFFER_SIZE. lia.
  - reflexivity.
  - rewrite repeat_length. unfold BUFFER_SIZE. lia.
  - destruct (HB 4096) as [HB1 _].
    { rewrite repeat_length. vm_compute. lia. }
    rewrite repeat_length in HA, HB1.
    eexists. split; [|split].
    + transitivity (input_read 1 by_line (ReadBytes 514) (mk_kernel inp []) shell_init);
        [vm_compute; reflexivity|]. exact HA.
    + reflexivity.
    + transitivity (input_read 1 (by_block 4096) (ReadBytes 514) (mk_kernel inp [])
                               shell_init); [vm_compute; reflexivity|]. exact HB1.
Defined.

(* ------------------------------------------------------------------ *)
(** ** [signals.c]: the sequence of letters *)

Lemma signals_next_char_step :
  forall s : Signals.state,
    Signals.on_a_letter s ->
    fst (Signals.next_char s) = Signals.to_char (Signals.curr_char s)
    /\ Signals.curr_char (snd (Signals.next_char s))
       = Signals.letter_after (Signals.curr_char s) 1
    /\ Signals.interrupt (snd (Signals.next_char s)) = Signals.interrupt s
    /\ Signals.on_a_letter (snd (Signals.next_char s)).
Proof.
  intros [i c]. unfold Signals.on_a_letter, Signals.next_char, Signals.letter_after.
  cbn [Signals.curr_char Signals.interrupt fst snd].
  change (Signals.code "A") with 65%Z. change (Signals.code "Z") with 90%Z.
  intros Hc. split; [reflexivity|].
  destruct (Z.gtb_spec (c + 1) 90) as [Hgt|Hle].
  - split; [|split; [reflexivity|lia]].
    assert (c = 90%Z) by lia. subst c. reflexivity.
  - split; [|split; [reflexivity|lia]].
    rewrite Z.mod_small by lia. lia.
Qed.

Lemma signals_letter_after_after :
  forall (c : Z) (i : nat),
    (65 <= c <= 90)%Z ->
    Signals.letter_after (Signals.letter_after c 1) i = Signals.letter_after c (S i).
Proof.
  intros c i Hc. unfold Signals.letter_after.
  change (Signals.code "A") with 65%Z.
  change (Z.of_nat 1) with 1%Z.
  replace (65 + (c - 65 + 1) mod 26 - 65 + Z.of_nat i)%Z
    with ((c - 65 + 1) mod 26 + Z.of_nat i)%Z by lia.
  rewrite Nat2Z.inj_succ, Zplus_mod_idemp_l. f_equal. f_equal. lia.
Qed.

(** X17.  [signals.c]: the letters go round the alphabet.  From a state
    whose counter is a capital letter, [n] calls of [next_char] hand out
    the letters that follow it cyclically, 'A' coming after 'Z': the
    [i]-th call returns the letter [i] places further on, modulo 26.  The
    counter stays a capital letter, [interrupt] is not touched, 26 calls
    bring the state back to where it was, and SIGUSR2 restarts the
    letters at 'A' wherever they were. *)
Theorem signals_letters_cycle :
  forall (n : nat) (s : Signals.state),
    Signals.on_a_letter s ->
    fst (Signals.letters n s)
    = map (fun i => Signals.to_char (Signals.letter_after (Signals.curr_char s) i))
          (seq 0 n)
    /\ Signals.curr_char (snd (Signals.letters n s))
       = Signals.letter_after (Signals.curr_char s) n
    /\ Signals.interrupt (snd (Signals.letters n s)) = Signals.interrupt s
    /\ Signals.on_a_letter (snd (Signals.letters n s))
    /\ (n = 26 -> snd (Signals.letters n s) = s)
    /\ Signals.curr_char (Signals.sig_handler SIGUSR2 (snd (Signals.letters n s)))
       = Signals.code "A".
Proof.
  induction n as [|n IH]; intros s Hs.
  - cbn [Signals.letters fst snd seq map].
    assert (H0 : Signals.letter_after (Signals.curr_char s) 0 = Signals.curr_char s).
    { unfold Signals.letter_after, Signals.on_a_letter in *.
      change (Signals.code "A") with 65%Z in *.
      change (Signals.code "Z") with 90%Z in *.
      rewrite Z.add_0_r, Z.mod_small by lia. lia. }
    rewrite H0. repeat split; auto; try apply Hs.
  - destruct (signals_next_char_step Hs) as (Hc & Hnext & Hint & Hon).
    cbn [Signals.letters].
    destruct (Signals.next_char s) as [c s1]. cbn [fst snd] in *.
    destruct (IH s1 Hon) as (Hl & Hcur & Hi & Hon' & _ & Husr).
    destruct (Signals.letters n s1) as [cs s2]. cbn [fst snd] in *.
    assert (Hrange : (65 <= Signals.curr_char s <= 90)%Z) by exact Hs.
    assert (H0 : Signals.letter_after (Signals.curr_char s) 0 = Signals.curr_char s).
    { unfold Signals.letter_after. change (Signals.code "A") with 65%Z.
      rewrite Z.add_0_r, Z.mod_small by lia. lia. }
    split; [|split; [|split; [|split; [|split]]]].
    + cbn [seq map]. rewrite H0, <- Hc. f_equal.
      rewrite Hl, <- seq_shift, map_map. apply map_ext. intros i.
      rewrite Hnext. now rewrite signals_letter_after_after.
    + rewrite Hcur, Hnext. now apply signals_letter_after_after.
    + congruence.
    + exact Hon'.
    + intros Hn. destruct s as [i0 c0], s2 as [i2 c2].
      cbn [Signals.curr_char Signals.interrupt] in *. f_equal; [congruence|].
      rewrite Hcur, Hnext, signals_letter_after_after by exact Hrange.
      rewrite Hn. unfold Signals.letter_after. change (Signals.code "A") with 65%Z.
      replace (c0 - 65 + Z.of_nat 26)%Z with ((c0 - 65) + 1 * 26)%Z by lia.
      rewrite Z.mod_add by lia. rewrite Z.mod_small by lia. lia.
    + reflexivity.
Qed.

Lemma signals_letters_cycle_witness :
  fst (Signals.letters 28 (Signals.mk_state false (Signals.code "Y")))
  = list_ascii_of_string "YZABCDEFGHIJKLMNOPQRSTUVWXYZ"
  /\ Signals.curr_char (snd (Signals.letters 28 (Signals.mk_state false (Signals.code "Y"))))
     = Signals.code "A".
Proof.
  destruct (@signals_letters_cycle 28 (Signals.mk_state false (Signals.code "Y")))
    as (H1 & H2 & _).
  - vm_compute. split; discriminate.
  - rewrite H1, H2. split; vm_compute; reflexivity.
Defined.
